(** * gemma_binding.cpp: the session loop and the completion service

    A shallow embedding of [src/gemma_binding.cpp]: the interactive loop
    [ReplGemma] with its token callback, and the one-shot [decode] /
    [completion] pair.

    What is outside the file is kept abstract and enters as the fields of
    the class [Gemma]: the tokenizer ([Encode], [Decode]), the engine
    ([GenerateGemma]), the generator type [std::mt19937] with its [seed]
    member, the constant [EOS_ID] and the model's [model_training] field.

    Conventions of the model
    - [int] and [size_t] values are unbounded [Z]; signed overflow of the
      two position counters is undefined behaviour in C++ and stays outside
      the model.
    - a [std::string] is a [string] of bytes, [size()] is [String.length].
    - [std::cout] and [std::cerr] are one chronological list of chunks;
      [std::flush] writes nothing and is left out, [std::endl] is a newline.
    - wall-clock time is not modelled: the tokens-per-second figure is an
      opaque chunk [Real].
    - [std::random_device] is an input [rd] of the function that draws from it.
    - the probability argument of the token callback is unnamed and unused
      in both lambdas and is dropped. *)

From Stdlib Require Import ZArith List String Ascii Bool Lia.
Import ListNotations.
Open Scope string_scope.
Open Scope Z_scope.
Open Scope list_scope.

(** ** std::string helpers *)

Module Str.

Definition tab : ascii := "009"%char.
Definition lf : ascii := "010"%char.
Definition space : ascii := " "%char.

(** The one-character string "\n". *)
Definition endl : string := String lf EmptyString.

(** The character set of the literal [" \t\n"]. *)
Definition blanks : string := String space (String tab (String lf EmptyString)).

Fixpoint mem (c : ascii) (set : string) : bool :=
  match set with
  | EmptyString => false
  | String d rest => Ascii.eqb c d || mem c rest
  end.

Fixpoint drop (n : nat) (s : string) : string :=
  match n, s with
  | O, _ => s
  | S _, EmptyString => EmptyString
  | S k, String _ rest => drop k rest
  end.

(** [s.find_first_not_of(set)]; [None] is [npos]. *)
Fixpoint find_first_not_of (s set : string) : option nat :=
  match s with
  | EmptyString => None
  | String c rest =>
      if mem c set then option_map S (find_first_not_of rest set) else Some O
  end.

(** [s.erase(0, count)]: removes [min(count, size())] characters from the
    front; [npos] therefore clears the string. *)
Definition erase_front (s : string) (count : option nat) : string :=
  match count with
  | None => EmptyString
  | Some n => drop n s
  end.

(** [s.substr(pos)]: throws [std::out_of_range] ([None]) when
    [pos > size()], otherwise the characters from [pos] to the end. *)
Definition substr (s : string) (pos : nat) : option string :=
  if (String.length s <? pos)%nat then None else Some (drop pos s).

(** Leading characters of [s] that belong to [set], and what follows them. *)
Fixpoint span (set s : string) : string * string :=
  match s with
  | EmptyString => (EmptyString, EmptyString)
  | String c rest =>
      if mem c set
      then let (pre, post) := span set rest in (String c pre, post)
      else (EmptyString, s)
  end.

Fixpoint all_in (set s : string) : bool :=
  match s with
  | EmptyString => true
  | String c rest => mem c set && all_in set rest
  end.

Definition head_in (set s : string) : bool :=
  match s with
  | EmptyString => false
  | String c _ => mem c set
  end.

End Str.

(** ** Types of the surrounding library *)

Inductive ModelTraining : Type := GEMMA_IT | GEMMA_PT.

(** The fields of [InferenceArgs] this file reads. *)
Record InferenceArgs : Type := {
  max_tokens : Z;
  multiturn : bool;
  deterministic : bool
}.

(** How a call ends: it returns a value, a [HWY_ASSERT] fails, or
    [std::out_of_range] is thrown. The last two carry what had been
    built when control left. *)
Inductive outcome (A E : Type) : Type :=
| Returned (a : A)
| Aborted (e : E)
| OutOfRange (e : E).
Arguments Returned {A E} a.
Arguments Aborted {A E} e.
Arguments OutOfRange {A E} e.

Inductive stream : Type := Cout | Cerr.

Inductive chunk : Type :=
| Text (s : string)
| Num (z : Z)
| Real.

Definition output : Type := list (stream * chunk).

(** ** The engine as seen from this file

    One call of [GenerateGemma] is a finite script: the engine either
    returns ([Done], with the model and the generator as it leaves them) or
    invokes the token callback ([Stream]) and carries on from the
    callback's boolean answer and from the generator as the callback left
    it, since the generator is shared by reference. *)

Inductive EngineRun (Model Rng : Type) : Type :=
| Done (m : Model) (g : Rng)
| Stream (token : Z) (g : Rng) (k : bool -> Rng -> EngineRun Model Rng).
Arguments Done {Model Rng} m g.
Arguments Stream {Model Rng} token g k.

(** Everything [gemma_binding.cpp] takes from [gemma.h] and the C++
    library. The tokenizer is read-only once the model is loaded, so
    [Encode] and [Decode] do not depend on the model's state; [None] is a
    status that is not [ok()]. *)
Class Gemma : Type := {
  mt19937 : Type;
  seed : Z -> mt19937;
  Model : Type;
  model_training : Model -> ModelTraining;
  EOS_ID : Z;
  Encode : string -> option (list Z);
  Decode : list Z -> option string;
  GenerateGemma :
    Model -> InferenceArgs -> list Z -> Z -> (Z -> bool) -> mt19937 -> Z ->
    EngineRun Model mt19937
}.

(** The id inserted by [prompt.insert(prompt.begin(), 2)]. *)
Definition BOS_ID : Z := 2.

(** The two control-token wrappers of the instruction-tuned format. *)
Definition start_of_user_turn : string :=
  ("<start_of_turn>user" ++ Str.endl)%string.
Definition end_of_user_turn : string :=
  ("<end_of_turn>" ++ Str.endl ++ "<start_of_turn>model" ++ Str.endl)%string.
Definition end_of_turn : string := ("<end_of_turn>" ++ Str.endl)%string.

Definition instruct (prompt_string : string) : string :=
  (start_of_user_turn ++ prompt_string ++ end_of_user_turn)%string.

(** The variables the [stream_token] lambda of [ReplGemma] captures by
    reference, except the generator, which the engine shares and which is
    threaded next to this record; [io] is what went to the two streams. *)
Record Repl : Type := {
  abs_pos : Z;
  current_pos : Z;
  prompt_size : Z;
  io : output
}.

Definition put (st : Repl) (items : output) : Repl :=
  {| abs_pos := abs_pos st; current_pos := current_pos st;
     prompt_size := prompt_size st; io := io st ++ items |}.

Definition tick (st : Repl) : Repl :=
  {| abs_pos := abs_pos st + 1; current_pos := current_pos st + 1;
     prompt_size := prompt_size st; io := io st |}.

Definition rewind (st : Repl) : Repl :=
  {| abs_pos := 0; current_pos := current_pos st;
     prompt_size := prompt_size st; io := io st |}.

Definition new_turn (st : Repl) : Repl :=
  {| abs_pos := abs_pos st; current_pos := 0;
     prompt_size := prompt_size st; io := io st |}.

Definition set_prompt_size (n : Z) (st : Repl) : Repl :=
  {| abs_pos := abs_pos st; current_pos := current_pos st;
     prompt_size := n; io := io st |}.

(** [token_text.erase(0, token_text.find_first_not_of(" \t\n"))]. *)
Definition strip_front (token_text : string) : string :=
  Str.erase_front token_text (Str.find_first_not_of token_text Str.blanks).

(** Ghost record of one [GenerateGemma] call of the session loop: the
    string given to [Encode], the token vector and the start position sent
    to the engine, and the captured variables when the call came back. *)
Record Turn : Type := {
  req_text : string;
  req_prompt : list Z;
  req_start_pos : Z;
  turn_end : Repl
}.

(** Why [ReplGemma] returned: the [return] of line 152, or the loop
    condition of line 136 turning false. *)
Inductive exit : Type := Quit | Budget.

Section Program.
Context {G : Gemma}.

(** *** The callback of [ReplGemma] (lines 90-134) *)
Definition stream_token (args : InferenceArgs) (verbosity : Z)
    (token : Z) (gen : mt19937) (st : Repl)
  : outcome (bool * mt19937 * Repl) Repl :=
  let st := tick st in
  if current_pos st <? prompt_size st then
    Returned (true, gen, put st [(Cerr, Text ".")])
  else if token =? EOS_ID then
    let (st1, gen1) :=
      if negb (multiturn args)
      then (rewind st, if deterministic args then seed 42 else gen)
      else (st, gen) in
    let st2 :=
      if 2 <=? verbosity
      then put st1 [(Cout, Text (Str.endl ++ "[ End ]")%string);
                     (Cout, Text Str.endl)]
      else st1 in
    Returned (true, gen1, st2)
  else
    match Decode [token] with
    | None => Aborted st
    | Some token_text =>
        if current_pos st =? prompt_size st + 1 then
          let st1 :=
            if 1 <=? verbosity
            then put st [(Cout, Text Str.endl); (Cout, Text Str.endl)]
            else st in
          Returned (true, gen, put st1 [(Cout, Text (strip_front token_text))])
        else
          Returned (true, gen, put st [(Cout, Text token_text)])
    end.

(** *** The callback of [decode] (lines 279-282) *)
Definition collect_token (token : Z) (gen : mt19937) (generated_tokens : list Z)
  : outcome (bool * mt19937 * list Z) (list Z) :=
  Returned (true, gen, generated_tokens ++ [token]).

(** Running one engine script against a callback whose captured state has
    type [S]. An assertion failing inside the callback ends the run. *)
Fixpoint run_engine {S : Type}
    (callback : Z -> mt19937 -> S -> outcome (bool * mt19937 * S) S)
    (script : EngineRun Model mt19937) (s : S)
  : outcome (Model * mt19937 * S) S :=
  match script with
  | Done m g => Returned (m, g, s)
  | Stream token g k =>
      match callback token g s with
      | Returned (continue, g', s') => run_engine callback (k continue g') s'
      | Aborted e => Aborted e
      | OutOfRange e => OutOfRange e
      end
  end.

(** What a session leaves behind: the captured variables, the turns it
    ran (ghost) and the lines of standard input it did not read. *)
Record Session : Type := {
  final : Repl;
  final_gen : mt19937;
  final_model : Model;
  turns : list Turn;
  unread : list string
}.

Definition format_prompt (m : Model) (st : Repl) (line : string) : string :=
  match model_training m with
  | GEMMA_IT =>
      if 0 <? abs_pos st
      then (end_of_turn ++ instruct line)%string
      else instruct line
  | GEMMA_PT => line
  end.

Definition is_quit (line : string) : bool :=
  (line =? "%q")%string || (line =? "%Q")%string.

Definition budget_message (args : InferenceArgs) : output :=
  [(Cout, Text "max_tokens (");
   (Cout, Num (max_tokens args));
   (Cout, Text ") exceeded. Use a larger value if desired using the --max_tokens ");
   (Cout, Text ("command line flag." ++ Str.endl)%string)].

Definition turn_report (st : Repl) : output :=
  [(Cout, Num (current_pos st)); (Cout, Text " tokens (");
   (Cout, Num (abs_pos st)); (Cout, Text " total tokens)");
   (Cout, Text Str.endl); (Cout, Real); (Cout, Text " tokens / sec");
   (Cout, Text Str.endl)].

(** *** The [while] loop of [ReplGemma] (lines 136-199)

    [cin] is what is left of standard input, one element per line;
    [std::getline] fails on the empty list. *)
Fixpoint repl_loop (args : InferenceArgs) (verbosity : Z)
    (accept_token : Z -> bool) (cin : list string)
    (m : Model) (gen : mt19937) (st : Repl) (log : list Turn) {struct cin}
  : outcome (exit * Session) Session :=
  let leave st cin :=
    {| final := st; final_gen := gen; final_model := m;
       turns := log; unread := cin |} in
  if abs_pos st <? max_tokens args then
    let st := new_turn st in
    let st := if 1 <=? verbosity then put st [(Cout, Text "> ")] else st in
    match cin with
    | [] => Returned (Quit, leave st [])
    | line :: rest =>
        if is_quit line then Returned (Quit, leave st rest)
        else
          let prompt_string := format_prompt m st line in
          match Encode prompt_string with
          | None => Aborted (leave st rest)
          | Some encoded =>
              let prompt :=
                if abs_pos st =? 0 then BOS_ID :: encoded else encoded in
              let st := set_prompt_size (Z.of_nat (List.length prompt)) st in
              let st :=
                put st [(Cerr, Text Str.endl);
                        (Cerr, Text "[ Reading prompt ] ")] in
              let entry e :=
                {| req_text := prompt_string; req_prompt := prompt;
                   req_start_pos := abs_pos st; turn_end := e |} in
              match run_engine (stream_token args verbosity)
                      (GenerateGemma m args prompt (abs_pos st) accept_token
                         gen verbosity) st with
              | Returned (m', gen', st') =>
                  let st'' :=
                    if 2 <=? verbosity then put st' (turn_report st') else st' in
                  let st'' :=
                    put st'' [(Cout, Text Str.endl); (Cout, Text Str.endl)] in
                  repl_loop args verbosity accept_token rest m' gen' st''
                    (log ++ [entry st'])
              | Aborted e =>
                  Aborted {| final := e; final_gen := gen; final_model := m;
                             turns := log ++ [entry e]; unread := rest |}
              | OutOfRange e =>
                  OutOfRange {| final := e; final_gen := gen; final_model := m;
                                turns := log ++ [entry e]; unread := rest |}
              end
          end
    end
  else Returned (Budget, leave (put st (budget_message args)) cin).

Definition repl_start : Repl :=
  {| abs_pos := 0; current_pos := 0; prompt_size := 0; io := [] |}.

(** *** [ReplGemma] (lines 69-200) *)
Definition ReplGemma (m : Model) (args : InferenceArgs) (verbosity : Z)
    (accept_token : Z -> bool) (rd : Z) (cin : list string)
  : outcome (exit * Session) Session :=
  let gen := if deterministic args then seed 42 else seed rd in
  repl_loop args verbosity accept_token cin m gen repl_start [].

(** *** [decode] (lines 258-290)

    The caller's [prompt_string] is a reference: its value when control
    leaves [decode] is the second component of a returned pair and the
    payload of the other two outcomes. *)
Definition decode (m : Model) (args : InferenceArgs) (verbosity : Z)
    (accept_token : Z -> bool) (rd : Z) (prompt_string : string)
  : outcome (string * string) string :=
  let gen := seed rd in
  let prompt_string :=
    match model_training m with
    | GEMMA_IT => instruct prompt_string
    | GEMMA_PT => prompt_string
    end in
  match Encode prompt_string with
  | None => Aborted prompt_string
  | Some prompt =>
      match run_engine collect_token
              (GenerateGemma m args prompt 0 accept_token gen verbosity) [] with
      | Returned (_, _, generated_tokens) =>
          match Decode generated_tokens with
          | None => Aborted prompt_string
          | Some generated_text =>
              match Str.substr generated_text (String.length prompt_string) with
              | None => OutOfRange prompt_string
              | Some rest => Returned (rest, prompt_string)
              end
          end
      | Aborted _ => Aborted prompt_string
      | OutOfRange _ => OutOfRange prompt_string
      end
  end.

(** *** [completion] (lines 292-308); [m] is the model built from [loader]. *)
Definition completion (m : Model) (args : InferenceArgs) (verbosity : Z)
    (rd : Z) (prompt_string : string) : outcome (string * string) string :=
  decode m args verbosity (fun _ => true) rd prompt_string.

(** The string [decode] gives to [Encode] (lines 267-272). *)
Definition completion_prompt (m : Model) (prompt_string : string) : string :=
  match model_training m with
  | GEMMA_IT => instruct prompt_string
  | GEMMA_PT => prompt_string
  end.

(** The caller's string when control leaves [decode]. *)
Definition caller_prompt (r : outcome (string * string) string) : string :=
  match r with
  | Returned (_, p) => p
  | Aborted p => p
  | OutOfRange p => p
  end.

(** The tokens [decode] has accumulated when the engine returns. *)
Definition accumulated (m : Model) (args : InferenceArgs) (verbosity : Z)
    (accept_token : Z -> bool) (rd : Z) (formatted : string)
  : option (list Z) :=
  match Encode formatted with
  | None => None
  | Some prompt =>
      match run_engine collect_token
              (GenerateGemma m args prompt 0 accept_token (seed rd) verbosity)
              [] with
      | Returned (_, _, generated_tokens) => Some generated_tokens
      | _ => None
      end
  end.

(** *** States a session passes through

    The assignments [ReplGemma] and its callback make to the captured
    variables, one constructor per place in the source: the initial values
    (lines 74-76), [current_pos = 0] behind the loop condition (line 140),
    [prompt_size = prompt.size()] (line 177), a write to a stream, and one
    invocation of the callback with any token. *)
Definition landing (r : outcome (bool * mt19937 * Repl) Repl) : Repl :=
  match r with
  | Returned (_, _, st) => st
  | Aborted st => st
  | OutOfRange st => st
  end.

Inductive reachable (args : InferenceArgs) (verbosity : Z) : Repl -> Prop :=
| reach_start : reachable args verbosity repl_start
| reach_new_turn st :
    reachable args verbosity st -> abs_pos st < max_tokens args ->
    reachable args verbosity (new_turn st)
| reach_prompt_size st n :
    reachable args verbosity st ->
    reachable args verbosity (set_prompt_size (Z.of_nat n) st)
| reach_put st items :
    reachable args verbosity st -> reachable args verbosity (put st items)
| reach_token st token gen :
    reachable args verbosity st ->
    reachable args verbosity (landing (stream_token args verbosity token gen st)).

(** Whether the vector sent to the engine is the encoded text with the
    extra id in front of it. *)
Definition bos_inserted (t : Turn) : bool :=
  match Encode (req_text t) with
  | Some encoded =>
      if list_eq_dec Z.eq_dec (req_prompt t) (BOS_ID :: encoded)
      then true else false
  | None => false
  end.

(** The captured variables when a [GenerateGemma] call of the session loop
    ends. *)
Definition run_end (r : outcome (Model * mt19937 * Repl) Repl) : Repl :=
  match r with
  | Returned (_, _, st) => st
  | Aborted st => st
  | OutOfRange st => st
  end.

(** The session an outcome of the loop carries. *)
Definition session_of (r : outcome (exit * Session) Session) : Session :=
  match r with
  | Returned (_, s) => s
  | Aborted s => s
  | OutOfRange s => s
  end.

(** What one logged turn owes to the lines that produced it: the loop
    condition held, [Encode] succeeded on the logged text, the vector is
    the encoded text with the extra id in front exactly when the start
    position is 0, and the call came back in a state the session can be
    in. [follows a ts] says that [ts] is a run of such turns, the first
    starting at position [a] and each next one where the previous ended. *)
Definition turn_ok (args : InferenceArgs) (verbosity : Z) (t : Turn) : Prop :=
  req_start_pos t < max_tokens args /\
  (exists encoded,
      Encode (req_text t) = Some encoded /\
      req_prompt t =
        if req_start_pos t =? 0 then BOS_ID :: encoded else encoded) /\
  reachable args verbosity (turn_end t) /\
  (multiturn args = true -> req_start_pos t <= abs_pos (turn_end t)).

Inductive follows (args : InferenceArgs) (verbosity : Z)
  : Z -> list Turn -> Prop :=
| follows_nil a : follows args verbosity a []
| follows_cons t ts :
    turn_ok args verbosity t ->
    follows args verbosity (abs_pos (turn_end t)) ts ->
    follows args verbosity (req_start_pos t) (t :: ts).

End Program.

(** ** A small concrete engine

    Tokens are character codes, ids 0 to 2 decode to nothing, the
    generator is its seed. [chatty] streams the prompt back, then a space,
    then a letter drawn from the generator, then the end-of-sequence id;
    [silent] returns at once. *)
Module Toy.

Definition token_of_char (c : ascii) : Z := Z.of_nat (nat_of_ascii c).

Definition text_of_token (t : Z) : string :=
  if t <=? 2 then EmptyString
  else String (ascii_of_nat (Z.to_nat t)) EmptyString.

Definition encode (s : string) : option (list Z) :=
  Some (map token_of_char (list_ascii_of_string s)).

Definition decode_tokens (tokens : list Z) : option string :=
  Some (String.concat EmptyString (map text_of_token tokens)).

Definition engine : Type :=
  unit -> InferenceArgs -> list Z -> Z -> (Z -> bool) -> Z -> Z ->
  EngineRun unit Z.

Fixpoint echo (tokens : list Z) (g : Z) (next : Z -> EngineRun unit Z)
  : EngineRun unit Z :=
  match tokens with
  | [] => next g
  | t :: rest => Stream t g (fun _ g' => echo rest g' next)
  end.

Definition sample (g : Z) : Z := 97 + g mod 26.

Definition chatty : engine :=
  fun m _ prompt _ _ gen _ =>
    echo prompt gen (fun g =>
      Stream 32 g (fun _ g =>
        Stream (sample g) (g + 1) (fun _ g =>
          Stream 1 g (fun _ g => Done m g)))).

Definition silent : engine := fun m _ _ _ _ gen _ => Done m gen.

Definition gemma (training : ModelTraining) (e : engine) : Gemma :=
  {| mt19937 := Z; seed := fun z => z; Model := unit;
     model_training := fun _ => training; EOS_ID := 1;
     Encode := encode; Decode := decode_tokens; GenerateGemma := e |}.

Definition single_turn : InferenceArgs :=
  {| max_tokens := 3072; multiturn := false; deterministic := true |}.

Definition chat : InferenceArgs :=
  {| max_tokens := 3072; multiturn := true; deterministic := true |}.

Definition tight : InferenceArgs :=
  {| max_tokens := 5; multiturn := true; deterministic := true |}.

Definition accept_all (token : Z) : bool := true.

Definition no_turn : Turn :=
  {| req_text := EmptyString; req_prompt := []; req_start_pos := 0;
     turn_end := {| abs_pos := 0; current_pos := 0; prompt_size := 0;
                    io := [] |} |}.

(** A pre-trained and an instruction-tuned model on the chatty engine, and
    an instruction-tuned one on the silent engine. *)
Definition pt : Gemma := gemma GEMMA_PT chatty.
Definition it : Gemma := gemma GEMMA_IT chatty.
Definition mute : Gemma := gemma GEMMA_IT silent.

(** Captured variables with the three prompt positions just consumed, and
    two tokens later. *)
Definition prompt_done : Repl :=
  {| abs_pos := 3; current_pos := 3; prompt_size := 3; io := [] |}.
Definition replying : Repl :=
  {| abs_pos := 5; current_pos := 5; prompt_size := 3; io := [] |}.

End Toy.

(** ** One iteration of the session loop, piece by piece

    The steps of the body of the [while] loop under names of their own, for
    the statements about single turns: the reset of [current_pos] with the
    prompt sign (lines 140-146), the vector sent to the engine (lines
    172-175), the assignment of [prompt_size] with the notice on standard
    error (lines 177-180), and the ghost record of the turn that the three
    produce. [repl_loop_turn] below shows that the loop is made of them. *)
Section Iteration.
Context {G : Gemma}.
Variables (args : InferenceArgs) (verbosity : Z) (accept_token : Z -> bool).

Definition ask (st : Repl) : Repl :=
  if 1 <=? verbosity then put (new_turn st) [(Cout, Text "> ")]
  else new_turn st.

Definition prompt_tokens (st : Repl) (encoded : list Z) : list Z :=
  if abs_pos st =? 0 then BOS_ID :: encoded else encoded.

Definition announce (st : Repl) (prompt : list Z) : Repl :=
  put (set_prompt_size (Z.of_nat (List.length prompt)) st)
    [(Cerr, Text Str.endl); (Cerr, Text "[ Reading prompt ] ")].

Definition engine_call (m : Model) (gen : mt19937) (st : Repl)
    (encoded : list Z) : outcome (Model * mt19937 * Repl) Repl :=
  let prompt := prompt_tokens (ask st) encoded in
  run_engine (stream_token args verbosity)
    (GenerateGemma m args prompt (abs_pos (ask st)) accept_token gen verbosity)
    (announce (ask st) prompt).

Definition turn_of (m : Model) (gen : mt19937) (st : Repl) (line : string)
    (encoded : list Z) : Turn :=
  {| req_text := format_prompt m (ask st) line;
     req_prompt := prompt_tokens (ask st) encoded;
     req_start_pos := abs_pos (ask st);
     turn_end := run_end (engine_call m gen st encoded) |}.

(** The state the loop goes round with after a call that returned
    (lines 186-194). *)
Definition wrap_up (st' : Repl) : Repl :=
  put (if 2 <=? verbosity then put st' (turn_report st') else st')
    [(Cout, Text Str.endl); (Cout, Text Str.endl)].

End Iteration.

(** ** The two counters within a turn *)
Section Order.
Context {G : Gemma}.
Variables (args : InferenceArgs) (verbosity : Z).

(** Whether the callback, called with [token] in state [st], takes the
    assignment [abs_pos = 0] of line 104: past the prompt positions, on
    the end-of-sequence id, in a session that is not multiturn. *)
Definition resets (token : Z) (st : Repl) : bool :=
  negb (current_pos st + 1 <? prompt_size st) && (token =? EOS_ID) &&
  negb (multiturn args).

(** The states a session is in from the head of a turn on, for as long as
    no callback has taken that assignment. *)
Inductive unreset : Repl -> Prop :=
| unreset_start : unreset repl_start
| unreset_new_turn st :
    reachable args verbosity st -> abs_pos st < max_tokens args ->
    unreset (new_turn st)
| unreset_prompt_size st n :
    unreset st -> unreset (set_prompt_size (Z.of_nat n) st)
| unreset_put st items : unreset st -> unreset (put st items)
| unreset_token st token gen :
    unreset st -> resets token st = false ->
    unreset (landing (stream_token args verbosity token gen st)).

(** Whether a whole engine call goes by without that assignment. *)
Fixpoint reset_free (script : EngineRun Model mt19937) (st : Repl) : bool :=
  match script with
  | Done _ _ => true
  | Stream token g k =>
      negb (resets token st) &&
      match stream_token args verbosity token g st with
      | Returned (continue, g', st') => reset_free (k continue g') st'
      | Aborted _ => true
      | OutOfRange _ => true
      end
  end.

End Order.


(** ** The process around the two services

    The rest of the file: the help and configuration printers, [Run],
    [chat_base], [completion_base] and the wrappers the Python module
    exports. An [argv] is a list of C strings. Left out: the thread pools
    and the pinning of threads to cores, which nothing in this file
    observes, and [PROFILER_PRINT_RESULTS]. *)

Module CStr.

Definition nul : ascii := "000"%char.

(** What a reader of [s.c_str()] sees: the characters before the first
    NUL byte. *)
Fixpoint c_str (s : string) : string :=
  match s with
  | EmptyString => EmptyString
  | String c rest =>
      if Ascii.eqb c nul then EmptyString else String c (c_str rest)
  end.

Fixpoint has_nul (s : string) : bool :=
  match s with
  | EmptyString => false
  | String c rest => Ascii.eqb c nul || has_nul rest
  end.

End CStr.

Definition escape : string := String "027"%char EmptyString.
Definition backslash : string := String "092"%char EmptyString.

(** The string literals of [ShowHelp] (lines 31-40) and of [Run] (lines
    229-246). *)
Definition help_head : string :=
  (Str.endl ++ "gemma.cpp" ++ Str.endl ++ "---------" ++ Str.endl ++
   Str.endl ++
   "To run gemma.cpp, you need to specify 3 required model loading arguments: --tokenizer, --compressed_weights, and --model." ++
   Str.endl ++ Str.endl ++ "Model Loading Arguments" ++ Str.endl ++
   Str.endl)%string.

Definition help_inference : string :=
  (Str.endl ++ "Inference Arguments" ++ Str.endl ++ Str.endl)%string.

Definition help_application : string :=
  (Str.endl ++ "Application Arguments" ++ Str.endl ++ Str.endl)%string.

Definition help_tail : string :=
  (Str.endl ++ Str.endl)%string.

Definition banner_ascii_art : string :=
  ("  __ _  ___ _ __ ___  _ __ ___   __ _   ___ _ __  _ __" ++ Str.endl ++
   " / _` |/ _ " ++ backslash ++ " '_ ` _ " ++ backslash ++ "| '_ ` _ " ++
   backslash ++ " / _` | / __| '_ " ++ backslash ++ "| '_ " ++ backslash ++
   Str.endl ++ "| (_| |  __/ | | | | | | | | | | (_| || (__| |_) | |_) |" ++
   Str.endl ++ " " ++ backslash ++ "__, |" ++ backslash ++
   "___|_| |_| |_|_| |_| |_|" ++ backslash ++ "__,_(_)___| .__/| .__/" ++
   Str.endl ++ "  __/ |                                    | |   | |" ++
   Str.endl ++ " |___/                                     |_|   |_|")%string.

Definition instructions : string :=
  ("*Usage*" ++ Str.endl ++
   "  Enter an instruction and press enter (%Q quits)." ++ Str.endl ++
   Str.endl ++ "*Examples*" ++ Str.endl ++
   "  - Write an email to grandma thanking her for the cookies." ++
   Str.endl ++
   "  - What are some historical attractions to visit around Massachusetts?" ++
   Str.endl ++ "  - Compute the nth fibonacci number in javascript." ++
   Str.endl ++ "  - Write a standup comedy bit about GPU programming." ++
   Str.endl)%string.

Definition clear_screen : string :=
  (escape ++ "[2J" ++ escape ++ "[1;1H")%string.

(** What the file takes from [util/app.h], [util/args.h], [gemma.h] and
    Highway beyond the class [Gemma]: the three argument structures with
    their constructors from [(argc, argv)], [Validate] ([None] is the null
    pointer, no error), [Help] and [Print] as what they write, the model
    constructor, the values [ShowConfig] prints, and what [HWY_ABORT]
    writes to standard error for a formatted message. *)
Class Host {G : Gemma} : Type := {
  LoaderArgs : Type;
  AppArgs : Type;
  parse_loader : Z -> list string -> LoaderArgs;
  parse_inference : Z -> list string -> InferenceArgs;
  parse_app : Z -> list string -> AppArgs;
  HasHelp : Z -> list string -> bool;
  loader_validate : LoaderArgs -> option string;
  inference_validate : InferenceArgs -> option string;
  num_threads : AppArgs -> Z;
  app_verbosity : AppArgs -> Z;
  loader_help : LoaderArgs -> output;
  inference_help : InferenceArgs -> output;
  app_help : AppArgs -> output;
  loader_print : LoaderArgs -> Z -> output;
  inference_print : InferenceArgs -> Z -> output;
  app_print : AppArgs -> Z -> output;
  load : LoaderArgs -> Z -> Model;
  kPrefillBatchSize : Z;
  hardware_concurrency : Z;
  target_name : string;
  vector_bytes : Z;
  weight_type_name : string;
  embedder_type_name : string;
  abort_text : string -> string
}.

Section Process.
Context {G : Gemma} {H : Host}.

(** Why [HWY_ABORT] or a failed [HWY_ASSERT] ended the process. *)
Inductive halt : Type :=
| InvalidArgs (error : string)
| InSession (s : Session).

Definition in_session (r : outcome (exit * Session) Session)
  : outcome (exit * Session) halt :=
  match r with
  | Returned a => Returned a
  | Aborted s => Aborted (InSession s)
  | OutOfRange s => OutOfRange (InSession s)
  end.

(** *** [ShowHelp] (lines 27-41) *)
Definition ShowHelp (loader : LoaderArgs) (inference : InferenceArgs)
    (app : AppArgs) : output :=
  [(Cerr, Text help_head)] ++ loader_help loader ++
  [(Cerr, Text help_inference)] ++ inference_help inference ++
  [(Cerr, Text help_application)] ++ app_help app ++
  [(Cerr, Text help_tail)].

(** *** [ShowConfig] (lines 43-67); [dt] is the text [ctime] gives. *)
Definition ShowConfig (loader : LoaderArgs) (inference : InferenceArgs)
    (app : AppArgs) (dt : string) : output :=
  loader_print loader (app_verbosity app) ++
  inference_print inference (app_verbosity app) ++
  app_print app (app_verbosity app) ++
  if 2 <=? app_verbosity app then
    [(Cout, Text "Date & Time                   : "); (Cout, Text dt);
     (Cout, Text "Prefill Token Batch Size      : ");
     (Cout, Num kPrefillBatchSize); (Cout, Text Str.endl);
     (Cout, Text "Hardware concurrency          : ");
     (Cout, Num hardware_concurrency); (Cout, Text Str.endl);
     (Cout, Text "Instruction set               : ");
     (Cout, Text target_name); (Cout, Text " (");
     (Cout, Num (vector_bytes * 8)); (Cout, Text " bits)");
     (Cout, Text Str.endl);
     (Cout, Text "Weight Type                   : ");
     (Cout, Text weight_type_name); (Cout, Text Str.endl);
     (Cout, Text "EmbedderInput Type            : ");
     (Cout, Text embedder_type_name); (Cout, Text Str.endl)]
  else [].

(** [HWY_ABORT("\nInvalid args: %s", error)] (lines 223 and 330): the
    message on standard error. *)
Definition invalid_args (error : string) : output :=
  [(Cerr, Text (abort_text (Str.endl ++ "Invalid args: " ++ error)%string))].

(** *** [Run] (lines 202-256)

    What is written before the session starts, and how the process goes
    on; the session keeps its own [io], which follows. *)
Definition Run (loader : LoaderArgs) (inference : InferenceArgs)
    (app : AppArgs) (dt : string) (rd : Z) (cin : list string)
  : output * outcome (exit * Session) halt :=
  let model := load loader (num_threads app) in
  match inference_validate inference with
  | Some error =>
      (ShowHelp loader inference app ++ invalid_args error,
       Aborted (InvalidArgs error))
  | None =>
      let printed :=
        if 1 <=? app_verbosity app then
          [(Cout, Text clear_screen); (Cout, Text banner_ascii_art);
           (Cout, Text (Str.endl ++ Str.endl)%string)] ++
          ShowConfig loader inference app dt ++
          [(Cout, Text Str.endl); (Cout, Text instructions);
           (Cout, Text Str.endl)]
        else [] in
      (printed,
       in_session
         (ReplGemma model inference (app_verbosity app) (fun _ => true)
            rd cin))
  end.

(** *** [completion] (lines 292-308), with the model it builds *)
Definition completion_of_args (loader : LoaderArgs)
    (inference : InferenceArgs) (app : AppArgs) (rd : Z)
    (prompt_string : string) : outcome (string * string) string :=
  completion (load loader (num_threads app)) inference (app_verbosity app)
    rd prompt_string.

(** *** [chat_base] (lines 312-337) *)
Definition chat_base (argc : Z) (argv : list string) (dt : string) (rd : Z)
    (cin : list string) : output * outcome (exit * Session) halt :=
  let loader := parse_loader argc argv in
  let inference := parse_inference argc argv in
  let app := parse_app argc argv in
  let shown :=
    if HasHelp argc argv then ShowHelp loader inference app else [] in
  match loader_validate loader with
  | Some error =>
      (shown ++ ShowHelp loader inference app ++ invalid_args error,
       Aborted (InvalidArgs error))
  | None =>
      let (printed, r) := Run loader inference app dt rd cin in
      (shown ++ printed, r)
  end.

(** *** [completion_base] (lines 338-345); [None] when [argv[argc-1]] is
    not an element of [argv], which C++ leaves undefined. *)
Definition completion_base (argc : Z) (argv : list string) (rd : Z)
  : option (outcome (string * string) string) :=
  let loader := parse_loader argc argv in
  let inference := parse_inference argc argv in
  let app := parse_app argc argv in
  match (if 0 <=? argc - 1 then nth_error argv (Z.to_nat (argc - 1))
         else None) with
  | None => None
  | Some prompt_string =>
      Some (completion_of_args loader inference app rd prompt_string)
  end.

(** The wrapper gives back the text alone; its own [prompt_string], of
    which only [c_str()] was read, is as it was. *)
Definition hand_back (prompt_string : string)
    (r : outcome (string * string) string) : outcome string string :=
  match r with
  | Returned (text, _) => Returned text
  | Aborted _ => Aborted prompt_string
  | OutOfRange _ => OutOfRange prompt_string
  end.

(** *** [completion_base_wrapper] (lines 346-361) *)
Definition completion_base_wrapper (args : list string)
    (prompt_string : string) (rd : Z) : option (outcome string string) :=
  let argc := Z.of_nat (List.length args) + 2 in
  let argv_vec :=
    ["pygemma"] ++ map CStr.c_str args ++ [CStr.c_str prompt_string] in
  option_map (hand_back prompt_string) (completion_base argc argv_vec rd).

(** *** [show_help_wrapper] (lines 362-370) *)
Definition show_help_wrapper : output :=
  ShowHelp (parse_loader 0 []) (parse_inference 0 []) (parse_app 0 []).

(** How a call of [chat_base_wrapper] ends. Inside [chat_base], by
    [HWY_ABORT] or a failed assertion, or by an exception; or, once
    [chat_base] has returned, at the closing brace of a function that is
    declared to return a [std::string] and has no [return] statement,
    where C++ defines no behaviour. In no case is a value returned. *)
Inductive wrapper_end : Type :=
| Halted (h : halt)
| Threw (h : halt)
| Undefined (e : exit) (s : Session).

Definition off_the_end (r : outcome (exit * Session) halt) : wrapper_end :=
  match r with
  | Returned (e, s) => Undefined e s
  | Aborted h => Halted h
  | OutOfRange h => Threw h
  end.

(** *** [chat_base_wrapper] (lines 372-387) *)
Definition chat_base_wrapper (args : list string) (dt : string) (rd : Z)
    (cin : list string) : output * wrapper_end :=
  let argc := Z.of_nat (List.length args) + 1 in
  let argv_vec := ["pygemma"] ++ map CStr.c_str args in
  let (printed, r) := chat_base argc argv_vec dt rd cin in
  (printed, off_the_end r).

Definition on_cerr (c : stream * chunk) : Prop := fst c = Cerr.

End Process.

(** A host for the concrete engine: the argument structures are the
    [argv] itself, a loader needs "--model" among its arguments, and
    "--help" asks for help. *)
Module ToyHost.

Definition mentions (flag : string) (argv : list string) : bool :=
  existsb (String.eqb flag) argv.

Definition host (G : Gemma) (m : @Model G) (inference : InferenceArgs)
    (verbosity : Z) : @Host G :=
  {| LoaderArgs := list string;
     AppArgs := list string;
     parse_loader := fun _ argv => argv;
     parse_inference := fun _ _ => inference;
     parse_app := fun _ argv => argv;
     HasHelp := fun _ argv => mentions "--help" argv;
     loader_validate := fun argv =>
       if mentions "--model" argv then None else Some "Missing --model flag.";
     inference_validate := fun a =>
       if max_tokens a <? 0 then Some "max_tokens is negative." else None;
     num_threads := fun _ => 1;
     app_verbosity := fun _ => verbosity;
     loader_help := fun _ => [(Cerr, Text "--model")];
     inference_help := fun _ => [(Cerr, Text "--max_tokens")];
     app_help := fun _ => [(Cerr, Text "--verbosity")];
     loader_print := fun _ _ => [];
     inference_print := fun _ _ => [];
     app_print := fun _ _ => [];
     load := fun _ _ => m;
     kPrefillBatchSize := 16;
     hardware_concurrency := 1;
     target_name := "EMU128";
     vector_bytes := 16;
     weight_type_name := "SfpStream";
     embedder_type_name := "SfpStream";
     abort_text := fun message => ("Abort: " ++ message)%string |}.

Definition pt : @Host Toy.pt := host Toy.pt tt Toy.single_turn 0.

End ToyHost.

(** ** Facts about the string helpers *)

Lemma span_append set s :
  (fst (Str.span set s) ++ snd (Str.span set s))%string = s.
Proof.
  induction s as [|c rest IH]; simpl; [reflexivity|].
  destruct (Str.mem c set); [|reflexivity].
  destruct (Str.span set rest) as [pre post]; simpl in *.
  now rewrite IH.
Qed.

Lemma span_prefix_in set s : Str.all_in set (fst (Str.span set s)) = true.
Proof.
  induction s as [|c rest IH]; simpl; [reflexivity|].
  destruct (Str.mem c set) eqn:Hc; [|reflexivity].
  destruct (Str.span set rest) as [pre post]; simpl in *.
  now rewrite Hc.
Qed.

Lemma span_rest_head set s : Str.head_in set (snd (Str.span set s)) = false.
Proof.
  induction s as [|c rest IH]; simpl; [reflexivity|].
  destruct (Str.mem c set) eqn:Hc; simpl; [|assumption].
  now destruct (Str.span set rest).
Qed.

(** [erase(0, find_first_not_of(set))] leaves what follows the leading
    characters of [set]; the [npos] case is the all-blank string. *)
Lemma erase_find_span set s :
  Str.erase_front s (Str.find_first_not_of s set) = snd (Str.span set s).
Proof.
  induction s as [|c rest IH]; simpl; [reflexivity|].
  destruct (Str.mem c set); [|reflexivity].
  destruct (Str.find_first_not_of rest set) as [n|]; simpl in *;
    destruct (Str.span set rest); simpl in *; assumption.
Qed.

Lemma drop_length_append pre s : Str.drop (String.length pre) (pre ++ s) = s.
Proof. induction pre; simpl; auto. Qed.

Lemma drop_split n s :
  (n <= String.length s)%nat ->
  exists pre, s = (pre ++ Str.drop n s)%string /\ String.length pre = n.
Proof.
  revert s; induction n as [|n IH]; intros s Hn.
  - exists EmptyString; auto.
  - destruct s as [|c rest]; simpl in *; [lia|].
    destruct (IH rest ltac:(lia)) as (pre & Heq & Hlen).
    exists (String c pre); simpl; split; congruence.
Qed.

Lemma length_append s t :
  String.length (s ++ t) = (String.length s + String.length t)%nat.
Proof. induction s; simpl; auto. Qed.

Lemma substr_some s pos :
  (pos <= String.length s)%nat -> Str.substr s pos = Some (Str.drop pos s).
Proof.
  intros H; unfold Str.substr.
  destruct (Nat.ltb_spec (String.length s) pos); [lia|reflexivity].
Qed.

Lemma substr_none s pos :
  (String.length s < pos)%nat -> Str.substr s pos = None.
Proof.
  intros H; unfold Str.substr.
  destruct (Nat.ltb_spec (String.length s) pos); [reflexivity|lia].
Qed.

Lemma is_quit_spec line :
  is_quit line = true <-> line = "%q" \/ line = "%Q".
Proof.
  unfold is_quit; rewrite orb_true_iff, !String.eqb_eq; tauto.
Qed.

(** ** The token callbacks *)

Section Callback.
Context {G : Gemma}.
Variables (args : InferenceArgs) (verbosity : Z).

Lemma strip_front_split text :
  exists blank,
    text = (blank ++ strip_front text)%string /\
    Str.all_in Str.blanks blank = true /\
    Str.head_in Str.blanks (strip_front text) = false.
Proof.
  unfold strip_front; rewrite erase_find_span.
  exists (fst (Str.span Str.blanks text)).
  now rewrite span_append, span_prefix_in, span_rest_head.
Qed.

(** The callback counts the token in both counters whatever it does next,
    and never touches [prompt_size]. *)
Lemma stream_token_counts token gen st :
  let st' := landing (stream_token args verbosity token gen st) in
  current_pos st' = current_pos st + 1 /\
  prompt_size st' = prompt_size st /\
  (abs_pos st' = abs_pos st + 1 \/
   abs_pos st' = 0 /\ multiturn args = false /\ token = EOS_ID /\
   prompt_size st <= current_pos st + 1).
Proof.
  unfold stream_token; simpl.
  destruct (Z.ltb_spec (current_pos st + 1) (prompt_size st)); simpl; [auto|].
  destruct (Z.eqb_spec token EOS_ID).
  - destruct (multiturn args); simpl;
      destruct (2 <=? verbosity); simpl; auto 10.
  - destruct (Decode [token]); simpl; [|auto].
    destruct (current_pos st + 1 =? prompt_size st + 1); simpl;
      [destruct (1 <=? verbosity)|]; simpl; auto.
Qed.

(** C6: the callback puts [abs_pos] back to 0 only in a session that is not
    multiturn, on the end-of-sequence token, once the prompt positions are
    past; on that token the generator is reseeded with 42 when the session
    is deterministic and not multiturn, and in a multiturn session
    [abs_pos] keeps the value it has after the increment that opens every
    call ([tick]) and the generator is untouched. The loop's own
    assignments never write [abs_pos]. *)
Theorem reset_only_on_eos token gen st :
  0 <= abs_pos st ->
  (abs_pos (landing (stream_token args verbosity token gen st)) = 0 ->
   multiturn args = false /\ token = EOS_ID /\
   prompt_size st <= current_pos st + 1) /\
  (token = EOS_ID -> prompt_size st <= current_pos st + 1 ->
   exists gen' st',
     stream_token args verbosity token gen st = Returned (true, gen', st') /\
     (multiturn args = false ->
      abs_pos st' = 0 /\
      (deterministic args = true -> gen' = seed 42) /\
      (deterministic args = false -> gen' = gen)) /\
     (multiturn args = true ->
      abs_pos st' = abs_pos (tick st) /\ abs_pos (tick st) = abs_pos st + 1 /\
      gen' = gen)) /\
  (forall n items,
     abs_pos (new_turn st) = abs_pos st /\
     abs_pos (set_prompt_size n st) = abs_pos st /\
     abs_pos (put st items) = abs_pos st).
Proof.
  intros Hpos; repeat split.
  - destruct (stream_token_counts token gen st) as (_ & _ & [Hk|Hk]);
      simpl in Hk; intuition lia.
  - destruct (stream_token_counts token gen st) as (_ & _ & [Hk|Hk]);
      simpl in Hk; intuition lia.
  - destruct (stream_token_counts token gen st) as (_ & _ & [Hk|Hk]);
      simpl in Hk; intuition lia.
  - intros -> Hpast. unfold stream_token; simpl.
    destruct (Z.ltb_spec (current_pos st + 1) (prompt_size st)); [lia|].
    rewrite Z.eqb_refl.
    destruct (multiturn args), (deterministic args), (2 <=? verbosity);
      simpl; (do 2 eexists; split; [reflexivity|]);
      simpl; repeat split; intros; congruence.
Qed.

(** C4: in the session loop, a token that is not the end-of-sequence id and
    arrives once the prompt positions are past is written to standard
    output, after two newlines at most; the text written is the decoded
    token without its leading spaces, tabs and newlines when the
    incremented [current_pos] equals [prompt_size + 1], and the decoded
    token unchanged at every other position. The counter grows by one per
    call, so one call per turn at most meets the equality. The callback of
    the completion service appends the token id as it is. *)
Theorem first_token_stripped token gen st text :
  token <> EOS_ID ->
  Decode [token] = Some text ->
  prompt_size st <= current_pos st + 1 ->
  (exists st' pre written,
     stream_token args verbosity token gen st = Returned (true, gen, st') /\
     current_pos st' = current_pos st + 1 /\
     prompt_size st' = prompt_size st /\
     io st' = io st ++ pre ++ [(Cout, Text written)] /\
     Forall (fun c => c = (Cout, Text Str.endl)) pre /\
     (current_pos st + 1 = prompt_size st + 1 ->
      written = strip_front text /\
      exists blank,
        text = (blank ++ written)%string /\
        Str.all_in Str.blanks blank = true /\
        Str.head_in Str.blanks written = false) /\
     (current_pos st + 1 <> prompt_size st + 1 -> written = text)) /\
  (forall generated_tokens,
     collect_token token gen generated_tokens =
     Returned (true, gen, generated_tokens ++ [token])).
Proof.
  intros Hne Hdec Hpast; split; [|reflexivity].
  unfold stream_token; simpl.
  destruct (Z.ltb_spec (current_pos st + 1) (prompt_size st)); [lia|].
  destruct (Z.eqb_spec token EOS_ID); [contradiction|].
  rewrite Hdec.
  destruct (Z.eqb_spec (current_pos st + 1) (prompt_size st + 1)) as [He|He].
  - destruct (1 <=? verbosity); eexists; eexists; eexists;
      (split; [reflexivity|]); simpl; repeat split; try reflexivity.
    + rewrite <- app_assoc; reflexivity.
    + repeat constructor.
    + apply strip_front_split.
    + contradiction.
    + instantiate (1 := []); reflexivity.
    + constructor.
    + apply strip_front_split.
    + contradiction.
  - eexists; exists []; eexists; (split; [reflexivity|]); simpl.
    repeat split; try reflexivity; try constructor; contradiction.
Qed.

End Callback.

(** ** The session loop *)

Section Loop.
Context {G : Gemma}.
Variables (args : InferenceArgs) (verbosity : Z).

Lemma reachable_bounds st :
  reachable args verbosity st ->
  0 <= abs_pos st /\ 0 <= current_pos st /\
  (multiturn args = true -> current_pos st <= abs_pos st).
Proof.
  induction 1 as [|st Hr IH Hlt|st n Hr IH|st items Hr IH|st token gen Hr IH];
    simpl; try lia; try assumption.
  destruct IH as (Ha0 & Hc0 & Hm0).
  destruct (stream_token_counts args verbosity token gen st)
    as (Hc & _ & [Ha|(Ha & Hf & _)]); simpl in Hc, Ha.
  - repeat split; try lia. intros Hm; specialize (Hm0 Hm); lia.
  - repeat split; try lia. intros Hm; congruence.
Qed.

(** One engine call against the callback of the session loop. *)
Lemma run_engine_stream script : forall st,
  reachable args verbosity st ->
  let st' := run_end (run_engine (stream_token args verbosity) script st) in
  reachable args verbosity st' /\
  (multiturn args = true -> abs_pos st <= abs_pos st').
Proof.
  induction script as [m g|token g k IH]; intros st Hr; simpl.
  - split; [assumption|lia].
  - pose proof (reach_token args verbosity st token g Hr) as Hnext.
    pose proof (stream_token_counts args verbosity token g st) as Hcount.
    destruct (stream_token args verbosity token g st)
      as [[[continue g'] st1]|e|e] eqn:Hcb; simpl in *.
    + destruct (IH continue g' st1 Hnext) as [Hr' Hm'].
      split; [assumption|].
      intros Hm; specialize (Hm' Hm).
      destruct Hcount as (_ & _ & [Ha|(_ & Hf & _)]); [lia|congruence].
    + split; [assumption|].
      intros Hm; destruct Hcount as (_ & _ & [Ha|(_ & Hf & _)]);
        [lia|congruence].
    + split; [assumption|].
      intros Hm; destruct Hcount as (_ & _ & [Ha|(_ & Hf & _)]);
        [lia|congruence].
Qed.

(** The turns a run of the loop adds to its log. *)
Lemma repl_loop_follows accept_token cin : forall m gen st log,
  reachable args verbosity st ->
  let s := session_of (repl_loop args verbosity accept_token cin m gen st log) in
  reachable args verbosity (final s) /\
  exists ts, turns s = log ++ ts /\ follows args verbosity (abs_pos st) ts.
Proof.
  induction cin as [|line rest IH]; intros m gen st log Hr; simpl.
  - destruct (Z.ltb_spec (abs_pos st) (max_tokens args)); simpl.
    + split.
      * destruct (1 <=? verbosity); repeat constructor; assumption.
      * exists []; rewrite app_nil_r; split; [reflexivity|constructor].
    + split; [now constructor|].
      exists []; rewrite app_nil_r; split; [reflexivity|constructor].
  - destruct (Z.ltb_spec (abs_pos st) (max_tokens args)) as [Hlt|Hge]; simpl.
    2:{ split; [now constructor|].
        exists []; rewrite app_nil_r; split; [reflexivity|constructor]. }
    set (st1 := if 1 <=? verbosity then put (new_turn st) [(Cout, Text "> ")]
                else new_turn st).
    assert (Hr1 : reachable args verbosity st1).
    { subst st1; destruct (1 <=? verbosity); repeat constructor; assumption. }
    assert (Ha1 : abs_pos st1 = abs_pos st).
    { subst st1; destruct (1 <=? verbosity); reflexivity. }
    destruct (is_quit line); simpl.
    { split; [assumption|].
      exists []; rewrite app_nil_r; split; [reflexivity|constructor]. }
    destruct (Encode (format_prompt m st1 line)) as [encoded|] eqn:Henc; simpl.
    2:{ split; [assumption|].
        exists []; rewrite app_nil_r; split; [reflexivity|constructor]. }
    set (prompt := if abs_pos st1 =? 0 then BOS_ID :: encoded else encoded).
    set (st2 := put (set_prompt_size (Z.of_nat (List.length prompt)) st1)
                  [(Cerr, Text Str.endl); (Cerr, Text "[ Reading prompt ] ")]).
    assert (Hr2 : reachable args verbosity st2)
      by (subst st2; repeat constructor; assumption).
    assert (Ha2 : abs_pos st2 = abs_pos st) by (subst st2; simpl; assumption).
    destruct (run_engine_stream
                (GenerateGemma m args prompt (abs_pos st1) accept_token gen
                   verbosity) st2 Hr2) as [Hre Hmono].
    set (t := fun e => {| req_text := format_prompt m st1 line;
                          req_prompt := prompt;
                          req_start_pos := abs_pos st1; turn_end := e |}).
    assert (Hok : forall e,
               e = run_end (run_engine (stream_token args verbosity)
                     (GenerateGemma m args prompt (abs_pos st1) accept_token
                        gen verbosity) st2) ->
               turn_ok args verbosity (t e)).
    { intros e ->; unfold turn_ok, t; simpl; repeat split.
      - lia.
      - exists encoded; split; [assumption|reflexivity].
      - assumption.
      - rewrite Ha1, <- Ha2; assumption. }
    destruct (run_engine (stream_token args verbosity)
                (GenerateGemma m args prompt (abs_pos st1) accept_token gen
                   verbosity) st2) as [[[m' gen'] st']|e|e]; simpl in *.
    + set (st3 := put (if 2 <=? verbosity then put st' (turn_report st')
                       else st')
                    [(Cout, Text Str.endl); (Cout, Text Str.endl)]).
      assert (Hr3 : reachable args verbosity st3).
      { subst st3; destruct (2 <=? verbosity); repeat constructor; assumption. }
      assert (Ha3 : abs_pos st3 = abs_pos st').
      { subst st3; destruct (2 <=? verbosity); reflexivity. }
      destruct (IH m' gen' st3 (log ++ [t st']) Hr3) as (Hfin & ts & Hts & Hf).
      split; [exact Hfin|].
      exists (t st' :: ts); split.
      * rewrite Hts, <- app_assoc; reflexivity.
      * rewrite <- Ha1.
        change (abs_pos st1) with (req_start_pos (t st')).
        constructor; [apply Hok; reflexivity|].
        simpl; rewrite <- Ha3; exact Hf.
    + split; [assumption|].
      exists [t e]; split; [reflexivity|].
      rewrite <- Ha1.
      change (abs_pos st1) with (req_start_pos (t e)).
      constructor; [apply Hok; reflexivity|constructor].
    + split; [assumption|].
      exists [t e]; split; [reflexivity|].
      rewrite <- Ha1.
      change (abs_pos st1) with (req_start_pos (t e)).
      constructor; [apply Hok; reflexivity|constructor].
Qed.

Lemma follows_all a ts :
  follows args verbosity a ts -> Forall (turn_ok args verbosity) ts.
Proof. induction 1; constructor; assumption. Qed.

Lemma follows_head a t ts :
  follows args verbosity a (t :: ts) -> req_start_pos t = a.
Proof. inversion 1; reflexivity. Qed.

Lemma follows_tail a before t after :
  follows args verbosity a (before ++ t :: after) ->
  follows args verbosity (req_start_pos t) (t :: after).
Proof.
  revert a; induction before as [|b before IH]; intros a Hf; simpl in Hf.
  - inversion Hf; subst; assumption.
  - inversion Hf; subst; eauto.
Qed.

(** In a multiturn session no turn starts below an earlier one. *)
Lemma follows_mono a ts :
  multiturn args = true ->
  follows args verbosity a ts ->
  Forall (fun t => a <= req_start_pos t) ts.
Proof.
  intros Hm; induction 1 as [|t ts Hok Hf IH]; constructor; [lia|].
  destruct Hok as (_ & _ & _ & Hle); specialize (Hle Hm).
  eapply Forall_impl; [|exact IH]; simpl; intros; lia.
Qed.

Lemma session_follows m accept_token rd cin :
  let s := session_of (ReplGemma m args verbosity accept_token rd cin) in
  reachable args verbosity (final s) /\ follows args verbosity 0 (turns s).
Proof.
  unfold ReplGemma.
  destruct (repl_loop_follows accept_token cin m
              (if deterministic args then seed 42 else seed rd)
              repl_start [] (reach_start args verbosity))
    as (Hfin & ts & Hts & Hf).
  simpl in Hts; rewrite Hts; split; assumption.
Qed.

(** A run of the loop only appends to its log. *)
Lemma repl_loop_extends accept_token cin : forall m gen st log,
  exists ts,
    turns (session_of (repl_loop args verbosity accept_token cin m gen st log))
    = log ++ ts.
Proof.
  induction cin as [|line rest IH]; intros m gen st log; simpl.
  - destruct (abs_pos st <? max_tokens args); exists []; simpl;
      now rewrite app_nil_r.
  - destruct (abs_pos st <? max_tokens args); simpl;
      [|exists []; now rewrite app_nil_r].
    destruct (is_quit line); simpl; [exists []; now rewrite app_nil_r|].
    destruct (Encode _) as [encoded|]; simpl;
      [|exists []; now rewrite app_nil_r].
    destruct (run_engine _ _ _) as [[[m' gen'] st']|e|e]; simpl;
      try (eexists [_]; reflexivity).
    match goal with
    | |- context [repl_loop _ _ _ rest m' gen' ?s (log ++ [?t])] =>
        destruct (IH m' gen' s (log ++ [t])) as [ts Hts]; exists (t :: ts)
    end.
    rewrite Hts, <- app_assoc; reflexivity.
Qed.

(** C2 (amended): in the session loop the vector sent to the engine is the
    encoded text with id 2 put in front exactly on the turns whose start
    position [abs_pos] is 0; the first turn of a session is one of them; a
    later turn starts at the position the engine call before it ended with;
    and in a multiturn session a turn that starts at a positive position is
    followed only by turns that start at a positive position. *)
Theorem bos_on_turns_starting_at_zero m accept_token rd cin :
  let s := session_of (ReplGemma m args verbosity accept_token rd cin) in
  Forall (fun t =>
            exists encoded,
              Encode (req_text t) = Some encoded /\
              req_prompt t =
                if req_start_pos t =? 0 then BOS_ID :: encoded else encoded)
         (turns s) /\
  (forall t rest, turns s = t :: rest -> req_start_pos t = 0) /\
  (forall before t t' rest,
     turns s = before ++ t :: t' :: rest ->
     req_start_pos t' = abs_pos (turn_end t)) /\
  (multiturn args = true ->
   forall before t rest,
     turns s = before ++ t :: rest ->
     0 < req_start_pos t ->
     Forall (fun t' => 0 < req_start_pos t') rest).
Proof.
  intros s.
  destruct (session_follows m accept_token rd cin) as [_ Hf]; fold s in Hf.
  repeat split.
  - eapply Forall_impl; [|exact (follows_all _ _ Hf)].
    intros t (_ & Henc & _); exact Henc.
  - intros t rest Heq; rewrite Heq in Hf; exact (follows_head _ _ _ Hf).
  - intros before t t' rest Heq; rewrite Heq in Hf.
    apply follows_tail in Hf.
    inversion Hf as [|? ? _ Hnext]; subst.
    exact (follows_head _ _ _ Hnext).
  - intros Hm before t rest Heq Hpos; rewrite Heq in Hf.
    pose proof (follows_mono _ _ Hm (follows_tail _ _ _ _ Hf)) as Hall.
    inversion Hall as [|? ? _ Hrest]; subst.
    eapply Forall_impl; [|exact Hrest]; simpl; intros; lia.
Qed.

End Loop.

(** ** The completion service *)

Section Completion.
Context {G : Gemma}.
Variables (args : InferenceArgs) (verbosity : Z).

(** The collecting callback never fails, so a call made with it returns,
    and it only appends. *)
Lemma run_engine_collect script : forall generated_tokens,
  exists m g more,
    run_engine collect_token script generated_tokens =
    Returned (m, g, generated_tokens ++ more).
Proof.
  induction script as [m g|token g k IH]; intros toks; simpl.
  - exists m, g, []; now rewrite app_nil_r.
  - destruct (IH true g (toks ++ [token])) as (m & g' & more & Hrun).
    exists m, g', (token :: more); rewrite Hrun, <- app_assoc; reflexivity.
Qed.

Lemma accumulated_some m accept_token rd formatted prompt :
  Encode formatted = Some prompt ->
  exists tokens, accumulated m args verbosity accept_token rd formatted = Some tokens.
Proof.
  intros Henc; unfold accumulated; rewrite Henc.
  destruct (run_engine_collect
              (GenerateGemma m args prompt 0 accept_token (seed rd) verbosity) [])
    as (m' & g' & more & Hrun).
  rewrite Hrun; eauto.
Qed.

(** [decode] in terms of its three steps. *)
Lemma decode_steps m accept_token rd p :
  let formatted := completion_prompt m p in
  decode m args verbosity accept_token rd p =
  match accumulated m args verbosity accept_token rd formatted with
  | None => Aborted formatted
  | Some tokens =>
      match Decode tokens with
      | None => Aborted formatted
      | Some full =>
          match Str.substr full (String.length formatted) with
          | None => OutOfRange formatted
          | Some rest => Returned (rest, formatted)
          end
      end
  end.
Proof.
  unfold decode, accumulated, completion_prompt; simpl.
  destruct (model_training m);
    (destruct (Encode _) as [prompt|]; [|reflexivity]);
    match goal with
    | |- context [run_engine collect_token ?script []] =>
        destruct (run_engine_collect script []) as (m' & g' & more & Hrun);
        rewrite Hrun
    end; reflexivity.
Qed.

Lemma caller_prompt_decode m accept_token rd p :
  caller_prompt (decode m args verbosity accept_token rd p)
  = completion_prompt m p.
Proof.
  rewrite decode_steps; simpl.
  destruct (accumulated _ _ _ _ _ _); [|reflexivity].
  destruct (Decode _); [|reflexivity].
  destruct (Str.substr _ _); reflexivity.
Qed.

Lemma instruct_longer p : (String.length p < String.length (instruct p))%nat.
Proof.
  unfold instruct, start_of_user_turn, end_of_user_turn.
  rewrite !length_append; simpl; lia.
Qed.

(** C3: when the completion service returns, the string it returns is the
    decoded text of all the accumulated tokens without its first [n]
    characters, [n] being the length of the formatted prompt string, the
    one that was given to [Encode]. *)
Theorem completion_trims_prompt_length m rd p text p' :
  completion m args verbosity rd p = Returned (text, p') ->
  p' = completion_prompt m p /\
  exists tokens full echoed,
    accumulated m args verbosity (fun _ => true) rd p' = Some tokens /\
    Decode tokens = Some full /\
    full = (echoed ++ text)%string /\
    String.length echoed = String.length p' /\
    text = Str.drop (String.length p') full.
Proof.
  unfold completion; rewrite decode_steps; simpl.
  destruct (accumulated _ _ _ _ _ _) as [tokens|] eqn:Hacc; [|discriminate].
  destruct (Decode tokens) as [full|] eqn:Hdec; [|discriminate].
  unfold Str.substr.
  destruct (Nat.ltb_spec (String.length full)
              (String.length (completion_prompt m p))) as [|Hle];
    [discriminate|].
  intros [= <- <-]; split; [reflexivity|].
  destruct (drop_split _ _ Hle) as (echoed & Hsplit & Hlen).
  exists tokens, full, echoed; auto.
Qed.

(** C9: the string the caller passed by reference holds the formatted
    prompt when control leaves the completion service of an
    instruction-tuned model, however it leaves; the formatted prompt is the
    caller's text between the two marker strings and differs from it. *)
Theorem completion_rewrites_caller_prompt m rd p :
  model_training m = GEMMA_IT ->
  caller_prompt (completion m args verbosity rd p) =
    (start_of_user_turn ++ p ++ end_of_user_turn)%string /\
  caller_prompt (completion m args verbosity rd p) <> p /\
  forall text p',
    completion m args verbosity rd p = Returned (text, p') ->
    p' = (start_of_user_turn ++ p ++ end_of_user_turn)%string.
Proof.
  intros Hit.
  assert (Hcp : caller_prompt (completion m args verbosity rd p) = instruct p).
  { unfold completion; rewrite caller_prompt_decode.
    unfold completion_prompt; now rewrite Hit. }
  repeat split.
  - exact Hcp.
  - rewrite Hcp; intros Heq.
    pose proof (instruct_longer p) as Hlen; rewrite Heq in Hlen; lia.
  - intros text p' Hrun; rewrite Hrun in Hcp; exact Hcp.
Qed.

(** C10: with the tokens accumulated and decoded, the completion service
    returns a string exactly when the decoded text is at least as long as
    the formatted prompt; when it is shorter, [substr] is out of range and
    no string comes back. An engine that returns without calling the
    callback, on a non-empty formatted prompt, is such a run. *)
Theorem completion_needs_long_enough_text m rd p tokens full :
  accumulated m args verbosity (fun _ => true) rd (completion_prompt m p)
    = Some tokens ->
  Decode tokens = Some full ->
  ((String.length (completion_prompt m p) <= String.length full)%nat ->
   completion m args verbosity rd p =
   Returned (Str.drop (String.length (completion_prompt m p)) full,
             completion_prompt m p)) /\
  ((String.length full < String.length (completion_prompt m p))%nat ->
   completion m args verbosity rd p = OutOfRange (completion_prompt m p)) /\
  (tokens = [] -> full = EmptyString ->
   completion_prompt m p <> EmptyString ->
   completion m args verbosity rd p = OutOfRange (completion_prompt m p)).
Proof.
  intros Hacc Hdec.
  unfold completion; rewrite decode_steps; simpl; rewrite Hacc, Hdec.
  repeat split.
  - intros Hle; now rewrite substr_some.
  - intros Hlt; now rewrite substr_none.
  - intros _ -> Hne; rewrite substr_none; [reflexivity|].
    destruct (completion_prompt m p); [congruence|simpl; lia].
Qed.

(** An engine that makes no callback leaves the accumulator empty. *)
Lemma accumulated_silent m accept_token rd formatted prompt m' g' :
  Encode formatted = Some prompt ->
  GenerateGemma m args prompt 0 accept_token (seed rd) verbosity = Done m' g' ->
  accumulated m args verbosity accept_token rd formatted = Some [].
Proof.
  intros Henc Hdone; unfold accumulated; now rewrite Henc, Hdone.
Qed.

End Completion.

(** ** Runs of the concrete engine *)

Section Runs.
Import Toy.

(** The session loop seeds from the configuration: with [deterministic]
    set, the draw from [std::random_device] plays no part. *)
Lemma ReplGemma_ignores_rd `{G : Gemma} m args verbosity accept_token rd rd' cin :
  deterministic args = true ->
  ReplGemma m args verbosity accept_token rd cin =
  ReplGemma m args verbosity accept_token rd' cin.
Proof. intros Hd; unfold ReplGemma; now rewrite Hd. Qed.

(** C1, at the failing input: with [deterministic] set, two calls of the
    completion service on the prompt "hi" whose draws from
    [std::random_device] are 1 and 2 return different strings. *)
Theorem completion_seeds_from_random_device :
  deterministic single_turn = true /\
  completion (G := pt) tt single_turn 0 1 "hi" = Returned (" b", "hi") /\
  completion (G := pt) tt single_turn 0 2 "hi" = Returned (" c", "hi") /\
  " b" <> " c".
Proof. repeat split; discriminate. Qed.

(** C2 as stated fails: a session that is not multiturn, on the two lines
    "hi" and "yo", sends id 2 in front of both prompts. *)
Lemma bos_twice_in_one_session :
  exists s,
    ReplGemma (G := pt) tt single_turn 0 accept_all 0 ["hi"; "yo"]
    = Returned (Quit, s) /\
    map req_prompt (turns s) = [[2; 104; 105]; [2; 121; 111]] /\
    map req_start_pos (turns s) = [0; 0] /\
    List.length (filter (bos_inserted (G := pt)) (turns s)) <> 1%nat.
Proof.
  eexists; split; [vm_compute; reflexivity|].
  repeat split; vm_compute; discriminate.
Qed.

(** C4 as stated fails for the completion service: on the prompt "hi" the
    prompt has two tokens, the third token accumulated is the space, its
    decoded text is kept with its leading blank, and the string returned
    starts with it. *)
Lemma collect_keeps_leading_blank :
  Encode (Gemma := pt) "hi" = Some [104; 105] /\
  accumulated (G := pt) tt single_turn 0 accept_all 1 "hi"
    = Some [104; 105; 32; 98; 1] /\
  Decode (Gemma := pt) [32] = Some " " /\
  strip_front " " = EmptyString /\
  completion (G := pt) tt single_turn 0 1 "hi" = Returned (" b", "hi").
Proof. repeat split. Qed.

(** C5 as stated fails: in a session that is not multiturn, when the
    engine call of the turn for "hi" comes back, [abs_pos] is 0 and
    [current_pos] is 6. *)
Lemma current_pos_above_abs_pos :
  exists s t,
    ReplGemma (G := pt) tt single_turn 0 accept_all 0 ["hi"]
    = Returned (Quit, s) /\
    turns s = [t] /\
    reachable (G := pt) single_turn 0 (turn_end t) /\
    abs_pos (turn_end t) = 0 /\ current_pos (turn_end t) = 6 /\
    ~ current_pos (turn_end t) <= abs_pos (turn_end t).
Proof.
  eexists; eexists; split; [vm_compute; reflexivity|].
  split; [reflexivity|].
  split.
  - destruct (session_follows (G := pt) single_turn 0 tt accept_all 0 ["hi"])
      as [_ Hf].
    apply follows_all in Hf.
    inversion Hf as [|t ts (_ & _ & Hr & _) _ Heq].
    exact Hr.
  - simpl; repeat split; lia.
Qed.

(** *** The theorems at concrete inputs *)

Lemma bos_on_turns_starting_at_zero_witness :
  let s := session_of
             (ReplGemma (G := it) tt chat 0 accept_all 0 ["hi"; "yo"; "ok"]) in
  multiturn chat = true /\
  0 < req_start_pos (nth 1 (turns s) no_turn) /\
  Forall (fun t' => 0 < req_start_pos t') (skipn 2 (turns s)).
Proof.
  intros s.
  split; [reflexivity|].
  split; [vm_compute; reflexivity|].
  apply (proj2 (proj2 (proj2 (bos_on_turns_starting_at_zero (G := it) chat 0
                                tt accept_all 0 ["hi"; "yo"; "ok"])))
           eq_refl (firstn 1 (turns s)) (nth 1 (turns s) no_turn)
           (skipn 2 (turns s))).
  - vm_compute; reflexivity.
  - vm_compute; reflexivity.
Defined.

Lemma first_token_stripped_witness :
  32 <> EOS_ID (Gemma := pt) /\
  Decode (Gemma := pt) [32] = Some " " /\
  prompt_size prompt_done <= current_pos prompt_done + 1 /\
  exists st',
    stream_token (G := pt) single_turn 0 32 7 prompt_done
    = Returned (true, 7, st') /\
    current_pos st' = 4.
Proof.
  assert (H1 : 32 <> EOS_ID (Gemma := pt)) by (simpl; lia).
  assert (H2 : Decode (Gemma := pt) [32] = Some " ") by reflexivity.
  assert (H3 : prompt_size prompt_done <= current_pos prompt_done + 1)
    by (simpl; lia).
  repeat split; try assumption.
  destruct (first_token_stripped (G := pt) single_turn 0 32 7 prompt_done " "
              H1 H2 H3) as [(st' & pre & written & Hrun & Hc & _) _].
  exists st'; split; [exact Hrun|exact Hc].
Defined.

Lemma reset_only_on_eos_witness :
  0 <= abs_pos replying /\
  exists gen' st',
    stream_token (G := pt) single_turn 0 1 7 replying
    = Returned (true, gen', st') /\
    abs_pos st' = 0 /\ gen' = seed (Gemma := pt) 42.
Proof.
  assert (H0 : 0 <= abs_pos replying) by (simpl; lia).
  split; [exact H0|].
  destruct (proj1 (proj2 (reset_only_on_eos (G := pt) single_turn 0 1 7
                            replying H0)) eq_refl ltac:(simpl; lia))
    as (gen' & st' & Hrun & Hsingle & _).
  destruct (Hsingle eq_refl) as (Ha & Hg & _).
  exists gen', st'; repeat split; [exact Hrun|exact Ha|exact (Hg eq_refl)].
Defined.

Lemma completion_trims_prompt_length_witness :
  completion (G := pt) tt single_turn 0 1 "hi" = Returned (" b", "hi") /\
  exists tokens full echoed,
    accumulated (G := pt) tt single_turn 0 (fun _ => true) 1 "hi" = Some tokens /\
    Decode (Gemma := pt) tokens = Some full /\
    full = (echoed ++ " b")%string /\
    String.length echoed = String.length "hi" /\
    " b" = Str.drop (String.length "hi") full.
Proof.
  assert (H : completion (G := pt) tt single_turn 0 1 "hi"
              = Returned (" b", "hi")) by reflexivity.
  split; [exact H|].
  exact (proj2 (completion_trims_prompt_length (G := pt) single_turn 0 tt 1
                  "hi" " b" "hi" H)).
Defined.

Lemma completion_rewrites_caller_prompt_witness :
  model_training (Gemma := it) tt = GEMMA_IT /\
  caller_prompt (completion (G := it) tt single_turn 0 1 "hi")
  = (start_of_user_turn ++ "hi" ++ end_of_user_turn)%string.
Proof.
  assert (H : model_training (Gemma := it) tt = GEMMA_IT) by reflexivity.
  split; [exact H|].
  exact (proj1 (completion_rewrites_caller_prompt (G := it) single_turn 0 tt 1
                  "hi" H)).
Defined.

Lemma completion_needs_long_enough_text_witness :
  accumulated (G := mute) tt single_turn 0 (fun _ => true) 1
    (completion_prompt (G := mute) tt "hi") = Some [] /\
  Decode (Gemma := mute) [] = Some EmptyString /\
  completion (G := mute) tt single_turn 0 1 "hi"
  = OutOfRange (completion_prompt (G := mute) tt "hi").
Proof.
  assert (H1 : accumulated (G := mute) tt single_turn 0 (fun _ => true) 1
                 (completion_prompt (G := mute) tt "hi") = Some [])
    by reflexivity.
  assert (H2 : Decode (Gemma := mute) [] = Some EmptyString) by reflexivity.
  split; [exact H1|]. split; [exact H2|].
  apply (proj2 (proj2 (completion_needs_long_enough_text (G := mute)
                         single_turn 0 tt 1 "hi" [] EmptyString H1 H2)));
    [reflexivity|reflexivity|discriminate].
Defined.

End Runs.

(** ** More about the session loop *)

Section Turns.
Context {G : Gemma}.
Variables (args : InferenceArgs) (verbosity : Z) (accept_token : Z -> bool).

Let leave (m : Model) (gen : mt19937) (st : Repl) (log : list Turn)
    (cin : list string) : Session :=
  {| final := st; final_gen := gen; final_model := m;
     turns := log; unread := cin |}.

(** The loop on exhausted input. *)
Lemma repl_loop_eof m gen st log :
  repl_loop args verbosity accept_token [] m gen st log =
  if abs_pos st <? max_tokens args
  then Returned (Quit, leave m gen (ask verbosity st) log [])
  else Returned (Budget, leave m gen (put st (budget_message args)) log []).
Proof. reflexivity. Qed.

(** The loop on a line, in terms of the pieces of one iteration. *)
Lemma repl_loop_turn line rest m gen st log :
  repl_loop args verbosity accept_token (line :: rest) m gen st log =
  if abs_pos st <? max_tokens args then
    if is_quit line then Returned (Quit, leave m gen (ask verbosity st) log rest)
    else
      match Encode (format_prompt m (ask verbosity st) line) with
      | None => Aborted (leave m gen (ask verbosity st) log rest)
      | Some encoded =>
          let t := turn_of args verbosity accept_token m gen st line encoded in
          match engine_call args verbosity accept_token m gen st encoded with
          | Returned (m', gen', st') =>
              repl_loop args verbosity accept_token rest m' gen'
                (wrap_up verbosity st') (log ++ [t])
          | Aborted e => Aborted (leave m gen e (log ++ [t]) rest)
          | OutOfRange e => OutOfRange (leave m gen e (log ++ [t]) rest)
          end
      end
  else Returned (Budget, leave m gen (put st (budget_message args)) log
                           (line :: rest)).
Proof.
  simpl. destruct (abs_pos st <? max_tokens args); [|reflexivity].
  destruct (is_quit line); [reflexivity|].
  fold (ask verbosity st).
  destruct (Encode (format_prompt m (ask verbosity st) line)) as [encoded|];
    [|reflexivity].
  unfold turn_of; simpl.
  change (run_engine (stream_token args verbosity)
            (GenerateGemma m args
               (if abs_pos (ask verbosity st) =? 0 then BOS_ID :: encoded
                else encoded)
               (abs_pos (ask verbosity st)) accept_token gen verbosity) _)
    with (engine_call args verbosity accept_token m gen st encoded).
  destruct (engine_call args verbosity accept_token m gen st encoded)
    as [[[m' gen'] st']|e|e]; reflexivity.
Qed.

Lemma ask_reachable st :
  reachable args verbosity st -> abs_pos st < max_tokens args ->
  reachable args verbosity (ask verbosity st).
Proof.
  intros Hr Hlt; unfold ask.
  destruct (1 <=? verbosity); repeat constructor; assumption.
Qed.

Lemma ask_counters st :
  abs_pos (ask verbosity st) = abs_pos st /\
  current_pos (ask verbosity st) = 0.
Proof. unfold ask; destruct (1 <=? verbosity); split; reflexivity. Qed.

Lemma wrap_up_counters st :
  abs_pos (wrap_up verbosity st) = abs_pos st /\
  current_pos (wrap_up verbosity st) = current_pos st /\
  prompt_size (wrap_up verbosity st) = prompt_size st.
Proof. unfold wrap_up; destruct (2 <=? verbosity); repeat split. Qed.

Lemma engine_call_reachable m gen st encoded :
  reachable args verbosity st -> abs_pos st < max_tokens args ->
  reachable args verbosity
    (run_end (engine_call args verbosity accept_token m gen st encoded)).
Proof.
  intros Hr Hlt; unfold engine_call.
  apply run_engine_stream.
  unfold announce; repeat constructor; now apply ask_reachable.
Qed.

(** X1: what the callback of the session loop can do. It never asks the
    engine to stop and never throws; it fails exactly on a token past the
    prompt positions, other than the end-of-sequence id, that the tokenizer
    cannot decode; and while prompt positions are being consumed it writes
    one dot to standard error whatever the token is, so that an
    end-of-sequence id met there resets and reseeds nothing. *)
Theorem stream_token_outcome token gen st :
  (forall continue gen' st',
     stream_token args verbosity token gen st = Returned (continue, gen', st') ->
     continue = true) /\
  (forall e, stream_token args verbosity token gen st <> OutOfRange e) /\
  ((exists e, stream_token args verbosity token gen st = Aborted e) <->
   prompt_size st <= current_pos st + 1 /\ token <> EOS_ID /\
   Decode [token] = None) /\
  (current_pos st + 1 < prompt_size st ->
   stream_token args verbosity token gen st =
   Returned (true, gen, put (tick st) [(Cerr, Text ".")])).
Proof.
  assert (Hcases :
    (current_pos st + 1 < prompt_size st /\
     stream_token args verbosity token gen st =
     Returned (true, gen, put (tick st) [(Cerr, Text ".")])) \/
    (prompt_size st <= current_pos st + 1 /\
     ((token = EOS_ID /\ exists gen' st',
         stream_token args verbosity token gen st = Returned (true, gen', st')) \/
      (token <> EOS_ID /\ exists text st',
         Decode [token] = Some text /\
         stream_token args verbosity token gen st = Returned (true, gen, st')) \/
      (token <> EOS_ID /\ Decode [token] = None /\
       stream_token args verbosity token gen st = Aborted (tick st))))).
  { unfold stream_token; simpl.
    destruct (Z.ltb_spec (current_pos st + 1) (prompt_size st));
      [left; split; [assumption|reflexivity]|right; split; [assumption|]].
    destruct (Z.eqb_spec token EOS_ID).
    - left; split; [assumption|].
      destruct (negb (multiturn args)); eauto.
    - right; destruct (Decode [token]) as [text|].
      + left; split; [assumption|].
        destruct (current_pos st + 1 =? prompt_size st + 1); eauto.
      + right; auto. }
  destruct Hcases as [(Hlt & Hrun)|(Hge & [(He & g1 & s1 & Hrun)|
                       [(Hne & text & s1 & Hd & Hrun)|(Hne & Hd & Hrun)]])];
    rewrite Hrun; repeat split; try congruence; try lia;
    try (intros [e He']; discriminate);
    try (intros (_ & Hn & Hd'); congruence);
    try match goal with
        | H : exists _, Returned _ = Aborted _ |- _ =>
            destruct H; discriminate
        end;
    try assumption.
  intros _; eexists; reflexivity.
Qed.

(** The counters over one engine call. *)
Lemma run_engine_counters script : forall st,
  0 <= abs_pos st ->
  let st' := run_end (run_engine (stream_token args verbosity) script st) in
  prompt_size st' = prompt_size st /\
  current_pos st <= current_pos st' /\
  0 <= abs_pos st' /\
  abs_pos st' - current_pos st' <= abs_pos st - current_pos st /\
  (multiturn args = true ->
   abs_pos st' - current_pos st' = abs_pos st - current_pos st).
Proof.
  induction script as [m g|token g k IH]; intros st Ha; simpl.
  - repeat split; lia.
  - pose proof (stream_token_counts args verbosity token g st) as Hc.
    simpl in Hc; destruct Hc as (Hcur & Hps & Habs).
    assert (Hmt : multiturn args = true ->
                  abs_pos (landing (stream_token args verbosity token g st))
                  = abs_pos st + 1).
    { intros Hm; destruct Habs as [?|(_ & Hf & _)]; [assumption|congruence]. }
    destruct (stream_token args verbosity token g st)
      as [[[continue g'] st1]|e|e]; simpl in *.
    + assert (Ha1 : 0 <= abs_pos st1) by lia.
      destruct (IH continue g' st1 Ha1) as (H1 & H2 & H3 & H4 & H5).
      rewrite H1, Hps; repeat split; try lia.
      intros Hm; specialize (H5 Hm); specialize (Hmt Hm); lia.
    + repeat split; try lia. intros Hm; specialize (Hmt Hm); lia.
    + repeat split; try lia. intros Hm; specialize (Hmt Hm); lia.
Qed.

(** How one engine call can fail. *)
Lemma run_engine_failure script : forall st,
  match run_engine (stream_token args verbosity) script st with
  | Returned _ => True
  | Aborted _ => exists token, Decode [token] = None
  | OutOfRange _ => False
  end.
Proof.
  induction script as [m g|token g k IH]; intros st; simpl; [exact I|].
  destruct (stream_token_outcome token g st) as (_ & Hno & Hab & _).
  destruct (stream_token args verbosity token g st)
    as [[[continue g'] st1]|e|e] eqn:Hcb.
  - apply IH.
  - exists token; apply Hab; eauto.
  - exact (Hno e eq_refl).
Qed.

End Turns.

(** ** Turns and the lines they come from *)

Section Lines.
Context {G : Gemma}.
Variables (args : InferenceArgs) (verbosity : Z) (accept_token : Z -> bool).

Section Each.
Variable P : string -> Turn -> Prop.
Hypothesis P_turn : forall m gen st line encoded,
  reachable args verbosity st ->
  abs_pos st < max_tokens args ->
  is_quit line = false ->
  Encode (format_prompt m (ask verbosity st) line) = Some encoded ->
  P line (turn_of args verbosity accept_token m gen st line encoded).

(** A property of single iterations holds of every turn of a run, paired
    with the line it was read from; the lines are read in order, and at
    most one line is consumed without a turn. *)
Lemma repl_loop_lines cin : forall m gen st log,
  reachable args verbosity st ->
  let s := session_of (repl_loop args verbosity accept_token cin m gen st log) in
  exists lines rest ts,
    turns s = log ++ ts /\
    cin = lines ++ rest /\
    (unread s = rest \/ exists l, rest = l :: unread s) /\
    Forall2 P lines ts.
Proof.
  induction cin as [|line cin IH]; intros m gen st log Hr.
  - rewrite repl_loop_eof.
    destruct (abs_pos st <? max_tokens args); simpl;
      exists [], [], []; rewrite app_nil_r; repeat split; auto.
  - rewrite repl_loop_turn.
    destruct (Z.ltb_spec (abs_pos st) (max_tokens args)) as [Hlt|Hge]; simpl.
    2:{ exists [], (line :: cin), []; rewrite app_nil_r; repeat split; auto. }
    destruct (is_quit line) eqn:Hq; simpl.
    { exists [], (line :: cin), []; rewrite app_nil_r; repeat split; eauto. }
    destruct (Encode (format_prompt m (ask verbosity st) line))
      as [encoded|] eqn:Henc; simpl.
    2:{ exists [], (line :: cin), []; rewrite app_nil_r; repeat split; eauto. }
    pose proof (P_turn m gen st line encoded Hr Hlt Hq Henc) as Ht.
    pose proof (engine_call_reachable args verbosity accept_token m gen st
                  encoded Hr Hlt) as Hre.
    destruct (engine_call args verbosity accept_token m gen st encoded)
      as [[[m' gen'] st']|e|e]; simpl in *.
    + assert (Hr' : reachable args verbosity (wrap_up verbosity st')).
      { unfold wrap_up; destruct (2 <=? verbosity); repeat constructor;
          assumption. }
      destruct (IH m' gen' (wrap_up verbosity st')
                  (log ++ [turn_of args verbosity accept_token m gen st line
                             encoded]) Hr')
        as (lines & rest & ts & Hts & Hcin & Hun & Hall).
      exists (line :: lines), rest,
        (turn_of args verbosity accept_token m gen st line encoded :: ts).
      rewrite Hts, <- app_assoc; repeat split; auto.
      simpl; now rewrite <- Hcin.
    + exists [line], cin,
        [turn_of args verbosity accept_token m gen st line encoded].
      repeat split; auto.
    + exists [line], cin,
        [turn_of args verbosity accept_token m gen st line encoded].
      repeat split; auto.
Qed.

End Each.

Lemma Forall2_right {A B} (Q : B -> Prop) (la : list A) (lb : list B) :
  Forall2 (fun _ b => Q b) la lb -> Forall Q lb.
Proof. induction 1; constructor; assumption. Qed.


(** X3: the counters when an engine call of the session comes back.
    [prompt_size] is the length of the vector that was sent, and is at
    least 1 on a turn started at position 0; [current_pos] and [abs_pos]
    are not negative; [abs_pos] has grown by no more than [current_pos],
    and in a multiturn session by exactly [current_pos], so that the two
    figures of the turn report differ by the start position. *)
Theorem turn_counters m rd cin :
  let s := session_of (ReplGemma m args verbosity accept_token rd cin) in
  Forall (fun t =>
            prompt_size (turn_end t) = Z.of_nat (List.length (req_prompt t)) /\
            (req_start_pos t = 0 -> 1 <= prompt_size (turn_end t)) /\
            0 <= current_pos (turn_end t) /\
            0 <= abs_pos (turn_end t) /\
            abs_pos (turn_end t) <= req_start_pos t + current_pos (turn_end t) /\
            (multiturn args = true ->
             abs_pos (turn_end t) = req_start_pos t + current_pos (turn_end t)))
    (turns s).
Proof.
  intros s; subst s; unfold ReplGemma.
  destruct (repl_loop_lines
              (fun (_ : string) t =>
                 prompt_size (turn_end t)
                 = Z.of_nat (List.length (req_prompt t)) /\
                 (req_start_pos t = 0 -> 1 <= prompt_size (turn_end t)) /\
                 0 <= current_pos (turn_end t) /\
                 0 <= abs_pos (turn_end t) /\
                 abs_pos (turn_end t)
                 <= req_start_pos t + current_pos (turn_end t) /\
                 (multiturn args = true ->
                  abs_pos (turn_end t)
                  = req_start_pos t + current_pos (turn_end t))))
    with (cin := cin) (m := m)
         (gen := if deterministic args then seed 42 else seed rd)
         (st := repl_start) (log := @nil Turn)
    as (lines & rest & ts & Hts & _ & _ & Hall).
  - intros m0 gen0 st0 line encoded Hr0 _ _ _.
    destruct (reachable_bounds args verbosity st0 Hr0) as (Ha0 & _ & _).
    destruct (ask_counters verbosity st0) as (Haa & Hac).
    unfold turn_of, engine_call; simpl.
    set (prompt := prompt_tokens (ask verbosity st0) encoded).
    destruct (run_engine_counters args verbosity
                (GenerateGemma m0 args prompt (abs_pos (ask verbosity st0))
                   accept_token gen0 verbosity)
                (announce (ask verbosity st0) prompt))
      as (Hps & Hcur & Habs & Hle & Heq).
    { unfold announce; simpl; lia. }
    unfold announce in Hps, Hcur, Hle, Heq; simpl in Hps, Hcur, Hle, Heq.
    fold (announce (ask verbosity st0) prompt) in Hps, Hcur, Habs, Hle, Heq.
    repeat split; try lia.
    + intros Hz; rewrite Hps; subst prompt; unfold prompt_tokens.
      rewrite Hz; simpl List.length; lia.
    + intros Hm; specialize (Heq Hm); lia.
  - constructor.
  - simpl in Hts; rewrite Hts.
    exact (Forall2_right _ _ _ Hall).
Qed.

End Lines.

(** ** How a session ends *)

Section Exits.
Context {G : Gemma}.
Variables (args : InferenceArgs) (verbosity : Z) (accept_token : Z -> bool).

Lemma repl_loop_exit cin : forall m gen st log,
  match repl_loop args verbosity accept_token cin m gen st log with
  | Returned (Budget, s) =>
      max_tokens args <= abs_pos (final s) /\
      (exists pre, io (final s) = pre ++ budget_message args) /\
      exists consumed,
        cin = consumed ++ unread s /\
        List.length (turns s) = (List.length log + List.length consumed)%nat
  | Returned (Quit, s) =>
      abs_pos (final s) < max_tokens args /\
      current_pos (final s) = 0 /\
      exists consumed,
        List.length (turns s) = (List.length log + List.length consumed)%nat /\
        ((cin = consumed /\ unread s = []) \/
         (exists q, is_quit q = true /\ cin = consumed ++ q :: unread s))
  | Aborted s =>
      (exists text, Encode text = None) \/ (exists token, Decode [token] = None)
  | OutOfRange _ => False
  end.
Proof.
  induction cin as [|line cin IH]; intros m gen st log.
  - rewrite repl_loop_eof.
    destruct (Z.ltb_spec (abs_pos st) (max_tokens args)) as [Hlt|Hge]; simpl.
    + destruct (ask_counters verbosity st) as (-> & ->).
      repeat split; try assumption.
      exists []; simpl; split; [lia|left; auto].
    + repeat split; try assumption; [eexists; reflexivity|].
      exists []; simpl; split; [reflexivity|lia].
  - rewrite repl_loop_turn.
    destruct (Z.ltb_spec (abs_pos st) (max_tokens args)) as [Hlt|Hge]; simpl.
    2:{ repeat split; try assumption; [eexists; reflexivity|].
        exists []; simpl; split; [reflexivity|lia]. }
    destruct (is_quit line) eqn:Hq; simpl.
    { destruct (ask_counters verbosity st) as (-> & ->).
      repeat split; try assumption.
      exists []; simpl; split; [lia|right; eauto]. }
    destruct (Encode (format_prompt m (ask verbosity st) line))
      as [encoded|] eqn:Henc; simpl; [|left; eauto].
    pose proof (run_engine_failure args verbosity
                  (GenerateGemma m args
                     (prompt_tokens (ask verbosity st) encoded)
                     (abs_pos (ask verbosity st)) accept_token gen verbosity)
                  (announce (ask verbosity st)
                     (prompt_tokens (ask verbosity st) encoded))) as Hfail.
    fold (engine_call args verbosity accept_token m gen st encoded) in Hfail.
    destruct (engine_call args verbosity accept_token m gen st encoded)
      as [[[m' gen'] st']|e|e]; simpl; [|right; exact Hfail|exact Hfail].
    specialize (IH m' gen' (wrap_up verbosity st')
                  (log ++ [turn_of args verbosity accept_token m gen st line
                             encoded])).
    destruct (repl_loop args verbosity accept_token cin m' gen'
                (wrap_up verbosity st') _) as [[[|] s]|s|s]; try exact IH.
    + destruct IH as (Ha & Hc & consumed & Hlen & Hin).
      repeat split; try assumption.
      exists (line :: consumed); split.
      * rewrite Hlen, length_app; simpl; lia.
      * destruct Hin as [(-> & Hu)|(q & Hq' & ->)]; [left; auto|right; eauto].
    + destruct IH as (Ha & Hio & consumed & Hcin & Hlen).
      repeat split; try assumption.
      exists (line :: consumed); split.
      * simpl; now rewrite <- Hcin.
      * rewrite Hlen, length_app; simpl; lia.
Qed.

(** X4: why a session returns. When it returns because the budget is
    spent, [abs_pos] is at least [max_tokens], the budget message is the
    last thing written, and each line read gave a turn. When it returns by
    the quit path, [abs_pos] is below [max_tokens], [current_pos] is 0, and
    either standard input is exhausted, each of its lines having given a
    turn, or the last line read is a quit literal and each line before it
    gave a turn. *)
Theorem session_return m rd cin e s :
  ReplGemma m args verbosity accept_token rd cin = Returned (e, s) ->
  match e with
  | Budget =>
      max_tokens args <= abs_pos (final s) /\
      (exists pre, io (final s) = pre ++ budget_message args) /\
      exists consumed,
        cin = consumed ++ unread s /\
        List.length (turns s) = List.length consumed
  | Quit =>
      abs_pos (final s) < max_tokens args /\
      current_pos (final s) = 0 /\
      exists consumed,
        List.length (turns s) = List.length consumed /\
        ((cin = consumed /\ unread s = []) \/
         (exists q, is_quit q = true /\ cin = consumed ++ q :: unread s))
  end.
Proof.
  unfold ReplGemma; intros Hrun.
  pose proof (repl_loop_exit cin m
                (if deterministic args then seed 42 else seed rd)
                repl_start []) as Hexit.
  rewrite Hrun in Hexit; destruct e; exact Hexit.
Qed.


End Exits.

(** ** More about the completion service and the stripped first token *)

Lemma drop_all s : Str.drop (String.length s) s = EmptyString.
Proof. induction s; simpl; auto. Qed.

Lemma drop_past pre s n :
  (String.length pre <= n)%nat ->
  Str.drop n (pre ++ s) = Str.drop (n - String.length pre) s.
Proof.
  revert n; induction pre as [|c pre IH]; intros n Hn; simpl in *.
  - now rewrite Nat.sub_0_r.
  - destruct n as [|n]; [lia|]; simpl; apply IH; lia.
Qed.

Lemma drop_within pre s n :
  (n <= String.length pre)%nat ->
  Str.drop n (pre ++ s) = (Str.drop n pre ++ s)%string.
Proof.
  revert n; induction pre as [|c pre IH]; intros n Hn; simpl in *.
  - now replace n with O by lia.
  - destruct n as [|n]; [reflexivity|]; simpl; apply IH; lia.
Qed.

Lemma span_all set s :
  Str.all_in set s = true -> Str.span set s = (s, EmptyString).
Proof.
  induction s as [|c rest IH]; simpl; [reflexivity|].
  destruct (Str.mem c set); simpl; [|discriminate].
  intros H; now rewrite (IH H).
Qed.

Lemma span_none set s :
  Str.head_in set s = false -> Str.span set s = (EmptyString, s).
Proof. destruct s as [|c rest]; simpl; [reflexivity|now intros ->]. Qed.

(** X6: the expression of line 123 at its edges. A text made of spaces,
    tabs and newlines only, for which [find_first_not_of] answers [npos],
    is erased whole; a text that starts with another character is left as
    it is, blanks further in included; stripping twice is stripping once;
    and the result is never longer than the text. *)
Theorem strip_front_edges text :
  (Str.all_in Str.blanks text = true -> strip_front text = EmptyString) /\
  (Str.head_in Str.blanks text = false -> strip_front text = text) /\
  strip_front (strip_front text) = strip_front text /\
  (String.length (strip_front text) <= String.length text)%nat.
Proof.
  unfold strip_front; rewrite !erase_find_span; repeat split.
  - intros H; now rewrite (span_all _ _ H).
  - intros H; now rewrite (span_none _ _ H).
  - now rewrite (span_none _ _ (span_rest_head Str.blanks text)).
  - rewrite <- (span_append Str.blanks text) at 2.
    rewrite length_append; lia.
Qed.

Section CompletionMore.
Context {G : Gemma}.
Variables (args : InferenceArgs) (verbosity : Z).

(** X7: how the completion service can fail by assertion: exactly when the
    tokenizer rejects the formatted prompt, or rejects the accumulated
    tokens. The engine call in between always comes back with its tokens,
    since the collecting callback cannot fail. *)
Theorem completion_failure m rd p :
  ((exists p', completion m args verbosity rd p = Aborted p') <->
   (Encode (completion_prompt m p) = None \/
    exists tokens,
      accumulated m args verbosity (fun _ => true) rd (completion_prompt m p)
        = Some tokens /\
      Decode tokens = None)) /\
  (Encode (completion_prompt m p) <> None ->
   exists tokens,
     accumulated m args verbosity (fun _ => true) rd (completion_prompt m p)
       = Some tokens).
Proof.
  assert (Hacc : Encode (completion_prompt m p) <> None ->
                 exists tokens,
                   accumulated m args verbosity (fun _ => true) rd
                     (completion_prompt m p) = Some tokens).
  { destruct (Encode (completion_prompt m p)) as [prompt|] eqn:Henc;
      [intros _|congruence].
    exact (accumulated_some args verbosity m _ rd _ prompt Henc). }
  split; [|exact Hacc].
  unfold completion; rewrite decode_steps; simpl.
  destruct (accumulated m args verbosity (fun _ => true) rd
              (completion_prompt m p)) as [tokens|] eqn:Ha.
  - destruct (Decode tokens) as [full|] eqn:Hd.
    + destruct (Str.substr full _); split;
        try (intros [p' Hp]; discriminate);
        intros [Henc|(tokens' & [= <-] & Hd')]; try congruence;
        unfold accumulated in Ha; rewrite Henc in Ha; discriminate.
    + split; [intros _; right; eauto|intros _; eauto].
  - split; [intros _; left|intros _; eauto].
    destruct (Encode (completion_prompt m p)) eqn:Henc; [|reflexivity].
    destruct Hacc as [tokens Ht]; congruence.
Qed.

(** X8: where the completion service cuts. Let the accumulated tokens
    decode to an echo of the prompt followed by the generated text. If the
    echo has as many characters as the formatted prompt, the text comes
    back whole; if it has fewer, the text comes back without its first
    characters, as many as are missing; if it has more, the end of the
    echo comes back in front of the text. *)
Theorem completion_cut_point m rd p tokens echo text :
  accumulated m args verbosity (fun _ => true) rd (completion_prompt m p)
    = Some tokens ->
  Decode tokens = Some (echo ++ text)%string ->
  let n := String.length (completion_prompt m p) in
  (String.length echo = n ->
   completion m args verbosity rd p = Returned (text, completion_prompt m p)) /\
  ((String.length echo <= n <= String.length echo + String.length text)%nat ->
   completion m args verbosity rd p =
   Returned (Str.drop (n - String.length echo) text, completion_prompt m p)) /\
  ((n <= String.length echo)%nat ->
   completion m args verbosity rd p =
   Returned ((Str.drop n echo ++ text)%string, completion_prompt m p)).
Proof.
  intros Hacc Hdec n.
  unfold completion; rewrite decode_steps; simpl; rewrite Hacc, Hdec.
  fold n; repeat split.
  - intros Hn; rewrite substr_some by (rewrite length_append; lia).
    now rewrite <- Hn, drop_length_append.
  - intros Hn; rewrite substr_some by (rewrite length_append; lia).
    now rewrite drop_past by lia.
  - intros Hn; rewrite substr_some by (rewrite length_append; lia).
    now rewrite drop_within by lia.
Qed.

End CompletionMore.

(** ** The wrappers and the process *)

Lemma c_str_whole s : CStr.has_nul s = false -> CStr.c_str s = s.
Proof.
  induction s as [|c rest IH]; simpl; [reflexivity|].
  destruct (Ascii.eqb c CStr.nul); simpl; [discriminate|].
  intros Hn; now rewrite IH.
Qed.

Lemma c_str_cut a b :
  CStr.has_nul a = false -> CStr.c_str (a ++ String CStr.nul b) = a.
Proof.
  induction a as [|c rest IH]; simpl; [reflexivity|].
  destruct (Ascii.eqb c CStr.nul); simpl; [discriminate|].
  intros Hn; now rewrite IH.
Qed.

Lemma nth_error_last {A} (x : A) (l : list A) (y : A) :
  nth_error (x :: l ++ [y]) (S (List.length l)) = Some y.
Proof.
  simpl; rewrite nth_error_app2 by lia.
  now rewrite Nat.sub_diag.
Qed.

Section Wrappers.
Context {G : Gemma} {H : Host}.

(** X9: the completion wrapper always finds its prompt in [argv]: the
    element [argv[argc-1]] exists, for any list of arguments, and is the
    caller's prompt as a C string. The service therefore runs on the
    prompt up to its first NUL byte, the whole prompt when it has none,
    with argument structures parsed from an [argv] whose last element is
    that prompt. *)
Theorem completion_wrapper_prompt args prompt_string rd :
  let argc := Z.of_nat (List.length args) + 2 in
  let argv := "pygemma" :: map CStr.c_str args ++ [CStr.c_str prompt_string] in
  argc = Z.of_nat (List.length argv) /\
  completion_base_wrapper args prompt_string rd =
  Some (hand_back prompt_string
          (completion_of_args (parse_loader argc argv)
             (parse_inference argc argv) (parse_app argc argv) rd
             (CStr.c_str prompt_string))) /\
  (CStr.has_nul prompt_string = false ->
   CStr.c_str prompt_string = prompt_string) /\
  (forall a b,
     prompt_string = (a ++ String CStr.nul b)%string ->
     CStr.has_nul a = false ->
     CStr.c_str prompt_string = a).
Proof.
  intros argc argv; repeat split.
  - subst argc argv; simpl; rewrite length_app, length_map; simpl; lia.
  - unfold completion_base_wrapper, completion_base; simpl.
    fold argc.
    destruct (Z.leb_spec 0 (argc - 1)) as [_|Hneg]; [|subst argc; lia].
    replace (Z.to_nat (argc - 1)) with (S (List.length (map CStr.c_str args)))
      by (subst argc; rewrite length_map; lia).
    rewrite nth_error_last; reflexivity.
  - apply c_str_whole.
  - intros a b -> Ha; now apply c_str_cut.
Qed.

End Wrappers.

(** ** How long a multiturn session can be *)

Section Length.
Context {G : Gemma}.
Variables (args : InferenceArgs) (verbosity : Z) (accept_token : Z -> bool).
Hypothesis chat : multiturn args = true.

Lemma repl_loop_length cin : forall m gen st log,
  reachable args verbosity st ->
  let s := session_of (repl_loop args verbosity accept_token cin m gen st log) in
  exists ts,
    turns s = log ++ ts /\
    (Forall (fun t => 1 <= current_pos (turn_end t)) ts ->
     ts = [] \/ abs_pos st + Z.of_nat (List.length ts) <= max_tokens args).
Proof.
  induction cin as [|line cin IH]; intros m gen st log Hr.
  - rewrite repl_loop_eof.
    destruct (abs_pos st <? max_tokens args); simpl;
      exists []; rewrite app_nil_r; auto.
  - rewrite repl_loop_turn.
    destruct (Z.ltb_spec (abs_pos st) (max_tokens args)) as [Hlt|Hge]; simpl;
      [|exists []; rewrite app_nil_r; auto].
    destruct (is_quit line); simpl; [exists []; rewrite app_nil_r; auto|].
    destruct (Encode (format_prompt m (ask verbosity st) line))
      as [encoded|]; simpl; [|exists []; rewrite app_nil_r; auto].
    set (t := turn_of args verbosity accept_token m gen st line encoded).
    pose proof (engine_call_reachable args verbosity accept_token m gen st
                  encoded Hr Hlt) as Hre.
    destruct (reachable_bounds args verbosity st Hr) as (Ha0 & _ & _).
    destruct (ask_counters verbosity st) as (Haa & Hac).
    assert (Hgrow : abs_pos (turn_end t)
                    = abs_pos st + current_pos (turn_end t)).
    { subst t; unfold turn_of, engine_call; simpl.
      set (prompt := prompt_tokens (ask verbosity st) encoded).
      destruct (run_engine_counters args verbosity
                  (GenerateGemma m args prompt (abs_pos (ask verbosity st))
                     accept_token gen verbosity)
                  (announce (ask verbosity st) prompt))
        as (_ & _ & _ & _ & Heq); [unfold announce; simpl; lia|].
      specialize (Heq chat); unfold announce in Heq at 3 4; simpl in Heq.
      lia. }
    unfold t, turn_of in Hgrow; simpl in Hgrow; fold t in Hgrow.
    assert (Hte : turn_end t
                  = run_end (engine_call args verbosity accept_token m gen st
                               encoded)) by reflexivity.
    destruct (engine_call args verbosity accept_token m gen st encoded)
      as [[[m' gen'] st']|e|e]; simpl in *.
    + assert (Hr' : reachable args verbosity (wrap_up verbosity st')).
      { unfold wrap_up; destruct (2 <=? verbosity); repeat constructor;
          assumption. }
      destruct (IH m' gen' (wrap_up verbosity st') (log ++ [t]) Hr')
        as (ts & Hts & Hbound).
      destruct (wrap_up_counters verbosity st') as (Hw & _).
      exists (t :: ts); split; [rewrite Hts, <- app_assoc; reflexivity|].
      intros Hall; right.
      assert (Ht : 1 <= current_pos (turn_end t))
        by (inversion Hall; assumption).
      assert (Hrest : Forall (fun t => 1 <= current_pos (turn_end t)) ts)
        by (inversion Hall; assumption).
      simpl in Ht; rewrite Hte in Ht.
      destruct (Hbound Hrest) as [->|Hb]; simpl List.length; lia.
    + exists [t]; split; [reflexivity|].
      intros _; right; simpl List.length; lia.
    + exists [t]; split; [reflexivity|].
      intros _; right; simpl List.length; lia.
Qed.

(** X11: a multiturn session in which every engine call streams at least
    one token runs at most [max_tokens] turns, since each turn starts
    where the one before ended and the budget is tested at the head of
    each. *)
Theorem multiturn_session_length m rd cin :
  let s := session_of (ReplGemma m args verbosity accept_token rd cin) in
  Forall (fun t => 1 <= current_pos (turn_end t)) (turns s) ->
  Z.of_nat (List.length (turns s)) <= Z.max 0 (max_tokens args).
Proof.
  intros s; subst s; unfold ReplGemma.
  destruct (repl_loop_length cin m
              (if deterministic args then seed 42 else seed rd)
              repl_start [] (reach_start args verbosity))
    as (ts & Hts & Hbound).
  simpl in Hts; rewrite Hts; intros Hall.
  destruct (Hbound Hall) as [->|Hb]; simpl in *; lia.
Qed.

End Length.

(** ** The further theorems at concrete inputs *)

Section MoreRuns.
Import Toy.

Lemma stream_token_outcome_witness :
  let st := {| abs_pos := 0; current_pos := 0; prompt_size := 3; io := [] |} in
  current_pos st + 1 < prompt_size st /\
  stream_token (G := pt) single_turn 0 1 7 st =
  Returned (true, 7, put (tick st) [(Cerr, Text ".")]).
Proof.
  intros st.
  assert (H : current_pos st + 1 < prompt_size st) by (simpl; lia).
  split; [exact H|].
  exact (proj2 (proj2 (proj2 (stream_token_outcome (G := pt) single_turn 0 1 7
                                st))) H).
Defined.


Lemma turn_counters_witness :
  multiturn chat = true /\
  Forall (fun t =>
            abs_pos (turn_end t) = req_start_pos t + current_pos (turn_end t))
    (turns (session_of
              (ReplGemma (G := it) tt chat 0 accept_all 0 ["hi"; "yo"]))).
Proof.
  assert (H : multiturn chat = true) by reflexivity.
  split; [exact H|].
  eapply Forall_impl;
    [|exact (turn_counters (G := it) chat 0 accept_all tt 0 ["hi"; "yo"])].
  intros t (_ & _ & _ & _ & _ & Heq); exact (Heq H).
Defined.

Lemma session_return_witness :
  exists s,
    ReplGemma (G := pt) tt tight 0 accept_all 0 ["hi"; "yo"]
    = Returned (Budget, s) /\
    max_tokens tight <= abs_pos (final s) /\
    unread s = ["yo"].
Proof.
  eexists; split; [vm_compute; reflexivity|].
  split; [|reflexivity].
  exact (proj1 (session_return (G := pt) tight 0 accept_all tt 0 ["hi"; "yo"]
                  Budget _ eq_refl)).
Defined.


Lemma strip_front_edges_witness :
  Str.all_in Str.blanks (String Str.space (String Str.lf EmptyString)) = true /\
  strip_front (String Str.space (String Str.lf EmptyString)) = EmptyString.
Proof.
  assert (H : Str.all_in Str.blanks
                (String Str.space (String Str.lf EmptyString)) = true)
    by reflexivity.
  split; [exact H|].
  exact (proj1 (strip_front_edges _) H).
Defined.

Lemma completion_failure_witness :
  Encode (Gemma := it) (completion_prompt (G := it) tt "hi") <> None /\
  exists tokens,
    accumulated (G := it) tt single_turn 0 (fun _ => true) 1
      (completion_prompt (G := it) tt "hi") = Some tokens.
Proof.
  assert (H : Encode (Gemma := it) (completion_prompt (G := it) tt "hi")
              <> None) by discriminate.
  split; [exact H|].
  exact (proj2 (completion_failure (G := it) single_turn 0 tt 1 "hi") H).
Defined.

Lemma completion_cut_point_witness :
  accumulated (G := pt) tt single_turn 0 (fun _ => true) 1
    (completion_prompt (G := pt) tt "hi") = Some [104; 105; 32; 98; 1] /\
  Decode (Gemma := pt) [104; 105; 32; 98; 1] = Some ("hi" ++ " b")%string /\
  String.length "hi" = String.length (completion_prompt (G := pt) tt "hi") /\
  completion (G := pt) tt single_turn 0 1 "hi"
  = Returned (" b", completion_prompt (G := pt) tt "hi").
Proof.
  assert (H1 : accumulated (G := pt) tt single_turn 0 (fun _ => true) 1
                 (completion_prompt (G := pt) tt "hi")
               = Some [104; 105; 32; 98; 1]) by reflexivity.
  assert (H2 : Decode (Gemma := pt) [104; 105; 32; 98; 1]
               = Some ("hi" ++ " b")%string) by reflexivity.
  assert (H3 : String.length "hi"
               = String.length (completion_prompt (G := pt) tt "hi"))
    by reflexivity.
  repeat (split; [assumption|]).
  exact (proj1 (completion_cut_point (G := pt) single_turn 0 tt 1 "hi"
                  [104; 105; 32; 98; 1] "hi" " b" H1 H2) H3).
Defined.

Lemma completion_wrapper_prompt_witness :
  CStr.has_nul "hi" = false /\ CStr.c_str "hi" = "hi" /\
  completion_base_wrapper (H := ToyHost.pt) ["--model"; "toy"] "hi" 1
  = Some (Returned " b").
Proof.
  assert (H : CStr.has_nul "hi" = false) by reflexivity.
  split; [exact H|].
  destruct (completion_wrapper_prompt (H := ToyHost.pt) ["--model"; "toy"]
              "hi" 1) as (_ & Hrun & Hwhole & _).
  split; [exact (Hwhole H)|].
  rewrite Hrun; reflexivity.
Defined.

Lemma multiturn_session_length_witness :
  let s := session_of
             (ReplGemma (G := it) tt chat 0 accept_all 0 ["hi"; "yo"]) in
  multiturn chat = true /\
  Forall (fun t => 1 <= current_pos (turn_end t)) (turns s) /\
  Z.of_nat (List.length (turns s)) <= Z.max 0 (max_tokens chat).
Proof.
  intros s.
  assert (H1 : multiturn chat = true) by reflexivity.
  assert (H2 : Forall (fun t => 1 <= current_pos (turn_end t)) (turns s)).
  { vm_compute; repeat constructor; discriminate. }
  split; [exact H1|]. split; [exact H2|].
  exact (multiturn_session_length (G := it) chat 0 accept_all H1 tt 0
           ["hi"; "yo"] H2).
Defined.

End MoreRuns.

(** ** The order of the two counters *)

Section OrderFacts.
Context {G : Gemma}.
Variables (args : InferenceArgs) (verbosity : Z).

(** One callback and the order of the counters. *)
Lemma stream_token_order token gen st :
  current_pos st <= abs_pos st ->
  let st' := landing (stream_token args verbosity token gen st) in
  (resets args token st = false -> current_pos st' <= abs_pos st') /\
  (resets args token st = true ->
   abs_pos st' = 0 /\ current_pos st' = current_pos st + 1).
Proof.
  intros Hle st'; subst st'.
  destruct (stream_token_counts args verbosity token gen st)
    as (Hc & _ & Ha); simpl in Hc, Ha.
  unfold resets.
  destruct (Z.ltb_spec (current_pos st + 1) (prompt_size st)) as [Hlt|Hge];
    simpl.
  - split; [intros _|discriminate].
    destruct Ha as [Ha|(_ & _ & _ & Hp)]; lia.
  - destruct (Z.eqb_spec token EOS_ID) as [Heos|Hne]; simpl.
    + destruct (multiturn args) eqn:Hm; simpl.
      * split; [intros _|discriminate].
        destruct Ha as [Ha|(_ & Hf & _)]; [lia|congruence].
      * split; [discriminate|intros _; split; [|exact Hc]].
        unfold stream_token; simpl.
        destruct (Z.ltb_spec (current_pos st + 1) (prompt_size st)); [lia|].
        destruct (Z.eqb_spec token EOS_ID); [|contradiction].
        rewrite Hm; simpl; destruct (2 <=? verbosity); reflexivity.
    + split; [intros _|discriminate].
      destruct Ha as [Ha|(_ & _ & He & _)]; [lia|contradiction].
Qed.

Lemma unreset_order st :
  unreset args verbosity st ->
  reachable args verbosity st /\ current_pos st <= abs_pos st.
Proof.
  induction 1 as [|st Hr Hlt|st n Hu [Hr Hle]|st items Hu [Hr Hle]
                  |st token gen Hu [Hr Hle] Hno].
  - split; [constructor|simpl; lia].
  - split; [now constructor|].
    destruct (reachable_bounds args verbosity st Hr) as (Ha & _); simpl; lia.
  - split; [now constructor|exact Hle].
  - split; [now constructor|exact Hle].
  - split; [now constructor|].
    exact (proj1 (stream_token_order token gen st Hle) Hno).
Qed.

Lemma reachable_unreset st :
  multiturn args = true ->
  reachable args verbosity st -> unreset args verbosity st.
Proof.
  intros Hm; induction 1; try (constructor; assumption).
  constructor; [assumption|].
  unfold resets; rewrite Hm; simpl; apply andb_false_r.
Qed.

Lemma reset_free_order script : forall st,
  current_pos st <= abs_pos st ->
  reset_free args verbosity script st = true ->
  let st' := run_end (run_engine (stream_token args verbosity) script st) in
  current_pos st' <= abs_pos st'.
Proof.
  induction script as [m g|token g k IH]; intros st Hle Hfree; simpl;
    [exact Hle|].
  simpl in Hfree; apply andb_true_iff in Hfree; destruct Hfree as [Hno Hrest].
  apply negb_true_iff in Hno.
  pose proof (proj1 (stream_token_order token g st Hle) Hno) as Hnext.
  destruct (stream_token args verbosity token g st)
    as [[[continue g'] st1]|e|e]; simpl in *; [|exact Hnext|exact Hnext].
  apply IH; assumption.
Qed.

(** C5 (amended): [current_pos <= abs_pos] holds in every state a session
    is in from the head of a turn on for as long as no callback has taken
    the end-of-sequence reset, multiturn or not. The order holds at the
    head of every turn; every callback but that reset keeps it, and the
    reset, which puts [abs_pos] to 0 and counts [current_pos] on, is the
    one step that can break it; an engine call that goes by without the
    reset ends with the order in place. In a multiturn session the reset is
    never taken and the order holds in every state. *)
Theorem current_pos_le_abs_pos_until_reset :
  (forall st,
     unreset args verbosity st ->
     reachable args verbosity st /\ current_pos st <= abs_pos st) /\
  (forall st,
     reachable args verbosity st ->
     current_pos (new_turn st) <= abs_pos (new_turn st)) /\
  (forall st token gen,
     current_pos st <= abs_pos st ->
     let st' := landing (stream_token args verbosity token gen st) in
     (resets args token st = false -> current_pos st' <= abs_pos st') /\
     (resets args token st = true ->
      abs_pos st' = 0 /\ current_pos st' = current_pos st + 1)) /\
  (forall accept_token m gen st encoded,
     reachable args verbosity st ->
     abs_pos st < max_tokens args ->
     reset_free args verbosity
       (GenerateGemma m args (prompt_tokens (ask verbosity st) encoded)
          (abs_pos (ask verbosity st)) accept_token gen verbosity)
       (announce (ask verbosity st) (prompt_tokens (ask verbosity st) encoded))
     = true ->
     let st' :=
       run_end (engine_call args verbosity accept_token m gen st encoded) in
     current_pos st' <= abs_pos st') /\
  (multiturn args = true ->
   forall st,
     reachable args verbosity st ->
     unreset args verbosity st /\ current_pos st <= abs_pos st).
Proof.
  split; [exact unreset_order|].
  split.
  { intros st Hr.
    destruct (reachable_bounds args verbosity st Hr) as (Ha & _); simpl; lia. }
  split; [intros st token gen; exact (stream_token_order token gen st)|].
  split.
  { intros accept_token m gen st encoded Hr Hlt Hfree; unfold engine_call.
    apply reset_free_order; [|exact Hfree].
    destruct (reachable_bounds args verbosity st Hr) as (Ha & _).
    destruct (ask_counters verbosity st) as (Haa & Hac).
    unfold announce; simpl; lia. }
  intros Hm st Hr.
  pose proof (reachable_unreset st Hm Hr) as Hu.
  split; [exact Hu|exact (proj2 (unreset_order st Hu))].
Qed.

End OrderFacts.

(** ** The budget and the quit literals *)

Section Endings.
Context {G : Gemma}.
Variables (args : InferenceArgs) (verbosity : Z) (accept_token : Z -> bool).

(** C7 (amended): the budget is tested at the head of a turn and nowhere
    else. Every turn of a session was started at a position below
    [max_tokens]; once [abs_pos >= max_tokens] at the loop condition the
    loop reads no line and calls the engine no more, appends to standard
    output the message that names [max_tokens], leaves the counters, the
    generator, the model and the log as they are, and returns; the
    callback does not look at [max_tokens], so within a turn it counts and
    writes on past the budget. *)
Theorem budget_tested_at_turn_head :
  (forall m rd cin,
     Forall (fun t => req_start_pos t < max_tokens args)
       (turns (session_of (ReplGemma m args verbosity accept_token rd cin)))) /\
  (forall m gen st cin log,
     max_tokens args <= abs_pos st ->
     exists s,
       repl_loop args verbosity accept_token cin m gen st log
       = Returned (Budget, s) /\
       io (final s) =
         io st ++
         [(Cout, Text "max_tokens ("); (Cout, Num (max_tokens args));
          (Cout, Text ") exceeded. Use a larger value if desired using the --max_tokens ");
          (Cout, Text ("command line flag." ++ Str.endl)%string)] /\
       abs_pos (final s) = abs_pos st /\
       current_pos (final s) = current_pos st /\
       prompt_size (final s) = prompt_size st /\
       final_gen s = gen /\ final_model s = m /\
       turns s = log /\ unread s = cin) /\
  (forall budget token gen st,
     stream_token
       {| max_tokens := budget; multiturn := multiturn args;
          deterministic := deterministic args |} verbosity token gen st
     = stream_token args verbosity token gen st).
Proof.
  split; [|split].
  - intros m rd cin.
    destruct (session_follows args verbosity m accept_token rd cin) as [_ Hf].
    eapply Forall_impl; [|exact (follows_all _ _ _ _ Hf)].
    intros t (Hlt & _); exact Hlt.
  - intros m gen st cin log Hge.
    eexists; split.
    + destruct cin; simpl;
        destruct (Z.ltb_spec (abs_pos st) (max_tokens args)); try lia;
        reflexivity.
    + simpl; repeat split; reflexivity.
  - intros budget token gen st; reflexivity.
Qed.

(** C8 (amended): behind a loop condition that holds, the loop returns
    with no further turn exactly when standard input is exhausted or the
    line read is one of the two literals, and it then returns at once, in
    the state the head of the turn left; any other line that the
    tokenizer accepts is sent to the engine, and the log goes on with the
    turn of that call. On the two lines "hello", "%q", with a positive
    budget and a tokenizer that accepts the first prompt, the session is
    one engine call, on the encoded prompt for "hello" with id 2 in front,
    after which it returns, by the literal, or by the budget when that
    call used it up, unless the call fails. *)
Theorem quit_literal_ends_session :
  (forall m gen st cin log,
     abs_pos st < max_tokens args ->
     ((exists s,
         repl_loop args verbosity accept_token cin m gen st log =
         Returned (Quit, s) /\ turns s = log) <->
      (cin = [] \/
       exists line rest, cin = line :: rest /\ (line = "%q" \/ line = "%Q"))) /\
     (forall rest,
        cin = [] /\ rest = [] \/ cin = "%q" :: rest \/ cin = "%Q" :: rest ->
        repl_loop args verbosity accept_token cin m gen st log =
        Returned (Quit, {| final := ask verbosity st; final_gen := gen;
                           final_model := m; turns := log;
                           unread := rest |})) /\
     (forall line rest encoded,
        cin = line :: rest -> line <> "%q" -> line <> "%Q" ->
        Encode (format_prompt m (ask verbosity st) line) = Some encoded ->
        exists ts,
          turns (session_of
                   (repl_loop args verbosity accept_token cin m gen st log))
          = log ++
            turn_of args verbosity accept_token m gen st line encoded :: ts)) /\
  (forall m rd encoded,
     0 < max_tokens args ->
     Encode (format_prompt m repl_start "hello") = Some encoded ->
     let gen := if deterministic args then seed 42 else seed rd in
     let t :=
       turn_of args verbosity accept_token m gen repl_start "hello" encoded in
     ReplGemma m args verbosity accept_token rd ["hello"; "%q"] =
     match engine_call args verbosity accept_token m gen repl_start encoded with
     | Returned (m', gen', st') =>
         if abs_pos st' <? max_tokens args
         then Returned (Quit, {| final := ask verbosity (wrap_up verbosity st');
                                 final_gen := gen'; final_model := m';
                                 turns := [t]; unread := [] |})
         else Returned (Budget,
                        {| final := put (wrap_up verbosity st')
                                      (budget_message args);
                           final_gen := gen'; final_model := m';
                           turns := [t]; unread := ["%q"] |})
     | Aborted e =>
         Aborted {| final := e; final_gen := gen; final_model := m;
                    turns := [t]; unread := ["%q"] |}
     | OutOfRange e =>
         OutOfRange {| final := e; final_gen := gen; final_model := m;
                       turns := [t]; unread := ["%q"] |}
     end /\
     req_text t = format_prompt m repl_start "hello" /\
     req_prompt t = BOS_ID :: encoded /\
     req_start_pos t = 0).
Proof.
  split.
  - intros m gen st cin log Hlt.
    assert (Hlt' : (abs_pos st <? max_tokens args) = true)
      by (apply Z.ltb_lt; exact Hlt).
    assert (Hother : forall line, line <> "%q" -> line <> "%Q" ->
                                  is_quit line = false).
    { intros line H1 H2; destruct (is_quit line) eqn:Hq; [|reflexivity].
      apply is_quit_spec in Hq; tauto. }
    split; [split|split].
    + intros (s & Hrun & Hturns).
      destruct cin as [|line rest]; [left; reflexivity|right].
      exists line, rest; split; [reflexivity|].
      apply is_quit_spec.
      destruct (is_quit line) eqn:Hq; [reflexivity|exfalso].
      rewrite repl_loop_turn, Hlt', Hq in Hrun.
      destruct (Encode _) as [encoded|]; [|discriminate].
      cbv zeta in Hrun.
      destruct (engine_call args verbosity accept_token m gen st encoded)
        as [[[m' gen'] st']|e|e]; try discriminate.
      destruct (repl_loop_extends args verbosity accept_token rest m' gen'
                  (wrap_up verbosity st')
                  (log ++ [turn_of args verbosity accept_token m gen st line
                             encoded])) as [ts Hts].
      rewrite Hrun in Hts; simpl in Hts.
      rewrite Hturns, <- app_assoc in Hts.
      apply (f_equal (@List.length Turn)) in Hts.
      rewrite !length_app in Hts; simpl in Hts; lia.
    + intros [->|(line & rest & -> & Hq)].
      * rewrite repl_loop_eof, Hlt'; eexists; split; reflexivity.
      * apply is_quit_spec in Hq.
        rewrite repl_loop_turn, Hlt', Hq; eexists; split; reflexivity.
    + intros rest [(-> & ->)|[->| ->]].
      * rewrite repl_loop_eof, Hlt'; reflexivity.
      * rewrite repl_loop_turn, Hlt'; reflexivity.
      * rewrite repl_loop_turn, Hlt'; reflexivity.
    + intros line rest encoded -> H1 H2 Henc.
      rewrite repl_loop_turn, Hlt', (Hother line H1 H2), Henc; cbv zeta.
      destruct (engine_call args verbosity accept_token m gen st encoded)
        as [[[m' gen'] st']|e|e]; simpl; try (exists []; reflexivity).
      destruct (repl_loop_extends args verbosity accept_token rest m' gen'
                  (wrap_up verbosity st')
                  (log ++ [turn_of args verbosity accept_token m gen st line
                             encoded])) as [ts Hts].
      exists ts; rewrite Hts, <- app_assoc; reflexivity.
  - intros m rd encoded Hpos Henc gen t.
    assert (Hfmt : format_prompt m (ask verbosity repl_start) "hello"
                   = format_prompt m repl_start "hello").
    { unfold format_prompt.
      now rewrite (proj1 (ask_counters verbosity repl_start)). }
    split; [|split; [exact Hfmt|split]].
    + unfold ReplGemma; fold gen.
      rewrite repl_loop_turn.
      change (abs_pos repl_start) with 0.
      destruct (Z.ltb_spec 0 (max_tokens args)); [|lia].
      change (is_quit "hello") with false; cbv iota.
      rewrite Hfmt, Henc; cbv zeta; fold t.
      destruct (engine_call args verbosity accept_token m gen repl_start
                  encoded) as [[[m' gen'] st']|e|e]; try reflexivity.
      rewrite repl_loop_turn.
      rewrite (proj1 (wrap_up_counters verbosity st')).
      destruct (abs_pos st' <? max_tokens args); reflexivity.
    + unfold t, turn_of, prompt_tokens; simpl.
      now rewrite (proj1 (ask_counters verbosity repl_start)).
    + unfold t, turn_of; simpl.
      exact (proj1 (ask_counters verbosity repl_start)).
Qed.

End Endings.

(** ** The chat process *)

Section Chat.
Context {G : Gemma} {H : Host}.

(** X10: what [chat_base] does with its arguments, and how its wrapper
    ends. The process is aborted for invalid arguments exactly when the
    loader or the inference arguments do not validate, the loader's error
    first; it has then printed the help text and the abort message last,
    and, if the three [Help] members write to standard error only,
    nothing on standard output. When both validate, the session of
    [ReplGemma] runs on the loaded model with a predicate that accepts
    every token, also when help was asked for: the help text is then
    printed first and the session follows. The wrapper calls [chat_base]
    with [argc] the number of elements of [argv]; it never returns a
    value: when the session returns it runs off its end. *)
Theorem chat_base_outcome dt rd cin :
  (forall argc argv,
     let loader := parse_loader argc argv in
     let inference := parse_inference argc argv in
     let app := parse_app argc argv in
     let shown :=
       if HasHelp argc argv then ShowHelp loader inference app else [] in
     let r := chat_base argc argv dt rd cin in
     ((exists error, snd r = Aborted (InvalidArgs error)) <->
      (loader_validate loader <> None \/
       inference_validate inference <> None)) /\
     (forall error,
        loader_validate loader = Some error \/
        loader_validate loader = None /\
        inference_validate inference = Some error ->
        r = (shown ++ ShowHelp loader inference app ++ invalid_args error,
             Aborted (InvalidArgs error)) /\
        (Forall on_cerr (loader_help loader) ->
         Forall on_cerr (inference_help inference) ->
         Forall on_cerr (app_help app) ->
         Forall on_cerr (fst r))) /\
     (loader_validate loader = None ->
      inference_validate inference = None ->
      snd r =
      in_session
        (ReplGemma (load loader (num_threads app)) inference
           (app_verbosity app) (fun _ => true) rd cin) /\
      exists printed, fst r = shown ++ printed)) /\
  (forall args,
     let argv := "pygemma" :: map CStr.c_str args in
     let argc := Z.of_nat (List.length argv) in
     chat_base_wrapper args dt rd cin =
     (fst (chat_base argc argv dt rd cin),
      off_the_end (snd (chat_base argc argv dt rd cin))) /\
     (forall e s,
        snd (chat_base argc argv dt rd cin) = Returned (e, s) ->
        snd (chat_base_wrapper args dt rd cin) = Undefined e s)).
Proof.
  assert (Hhelp : forall loader inference app,
            Forall on_cerr (loader_help loader) ->
            Forall on_cerr (inference_help inference) ->
            Forall on_cerr (app_help app) ->
            Forall on_cerr (ShowHelp loader inference app)).
  { intros loader inference app H1 H2 H3; unfold ShowHelp.
    repeat (apply Forall_app; split); try assumption; repeat constructor. }
  assert (Hwrap : forall args,
            chat_base_wrapper args dt rd cin =
            (fst (chat_base (Z.of_nat (List.length
                                         ("pygemma" :: map CStr.c_str args)))
                    ("pygemma" :: map CStr.c_str args) dt rd cin),
             off_the_end
               (snd (chat_base (Z.of_nat (List.length
                                            ("pygemma" :: map CStr.c_str args)))
                       ("pygemma" :: map CStr.c_str args) dt rd cin)))).
  { intros args; unfold chat_base_wrapper.
    replace (Z.of_nat (List.length args) + 1)
      with (Z.of_nat (List.length ("pygemma" :: map CStr.c_str args)))
      by (simpl List.length; rewrite length_map; lia).
    simpl app.
    destruct (chat_base _ _ dt rd cin) as [printed r]; reflexivity. }
  split.
  - intros argc argv loader inference app shown r.
    subst r; unfold chat_base, Run.
    fold loader inference app shown.
    destruct (loader_validate loader) as [e1|] eqn:Hl.
    { cbv beta iota zeta; cbn [fst snd]; split; [split|split].
      - intros _; left; discriminate.
      - intros _; eauto.
      - intros error [[= <-]|(Hn & _)]; [|discriminate].
        split; [reflexivity|].
        intros H1 H2 H3; apply Forall_app; split.
        + subst shown; destruct (HasHelp argc argv); [auto|constructor].
        + apply Forall_app; split; [auto|repeat constructor].
      - discriminate. }
    destruct (inference_validate inference) as [e2|] eqn:Hi.
    { cbv beta iota zeta; cbn [fst snd]; split; [split|split].
      - intros _; right; discriminate.
      - intros _; eauto.
      - intros error [Hn|(_ & [= <-])]; [discriminate|].
        split; [reflexivity|].
        intros H1 H2 H3; apply Forall_app; split.
        + subst shown; destruct (HasHelp argc argv); [auto|constructor].
        + apply Forall_app; split; [auto|repeat constructor].
      - discriminate. }
    cbv beta iota zeta; cbn [fst snd]; split; [split|split].
    + intros [error He].
      destruct (ReplGemma _ _ _ _ _ _) as [a|s|s]; discriminate.
    + intros [?|?]; congruence.
    + intros error [Hn|(_ & Hn)]; discriminate.
    + intros _ _; split; [reflexivity|eexists; reflexivity].
  - intros args argv argc; split; [apply Hwrap|].
    intros e s Hret; unfold argc, argv in Hret.
    rewrite Hwrap; cbn [snd]; rewrite Hret; reflexivity.
Qed.

End Chat.

(** ** Runs for the budget, the quit literals and the order *)

Section EndingRuns.
Import Toy.

(** C7 as stated fails: with [max_tokens] 1 the turn for "hi" starts at
    position 0 and its engine call runs to position 6; a callback entered
    at position 4 still writes its token. The loop ends by the budget only
    when the call has come back. *)
Lemma callbacks_run_past_budget :
  let args := {| max_tokens := 1; multiturn := true; deterministic := true |} in
  (exists s t,
     ReplGemma (G := pt) tt args 0 accept_all 0 ["hi"] = Returned (Budget, s) /\
     turns s = [t] /\ req_start_pos t = 0 /\
     abs_pos (turn_end t) = 6 /\
     In (Cout, Text "q") (io (turn_end t))) /\
  max_tokens args <= 4 /\
  stream_token (G := pt) args 0 113 43
    {| abs_pos := 4; current_pos := 4; prompt_size := 3; io := [] |}
  = Returned (true, 43,
              {| abs_pos := 5; current_pos := 5; prompt_size := 3;
                 io := [(Cout, Text "q")] |}).
Proof.
  intros args; split; [|split; [simpl; lia|reflexivity]].
  eexists; eexists; split; [vm_compute; reflexivity|].
  repeat split; simpl; auto 20.
Qed.

(** C8 as stated fails: with [max_tokens] 0 the session on the two lines
    "hello", "%q" ends at once by the budget: it reads no line, runs no
    turn, and neither line has been seen. *)
Lemma no_turn_on_empty_budget :
  let args := {| max_tokens := 0; multiturn := false; deterministic := true |} in
  exists s,
    ReplGemma (G := pt) tt args 0 accept_all 0 ["hello"; "%q"]
    = Returned (Budget, s) /\
    turns s = [] /\ unread s = ["hello"; "%q"] /\
    List.length (turns s) <> 1%nat.
Proof.
  intros args; eexists; split; [vm_compute; reflexivity|].
  repeat split; discriminate.
Qed.

Lemma current_pos_le_abs_pos_until_reset_witness :
  let st := landing (stream_token (G := pt) single_turn 0 104 42 repl_start) in
  resets (G := pt) single_turn 104 repl_start = false /\
  unreset (G := pt) single_turn 0 st /\
  current_pos st <= abs_pos st.
Proof.
  intros st.
  assert (H1 : resets (G := pt) single_turn 104 repl_start = false)
    by reflexivity.
  assert (H2 : unreset (G := pt) single_turn 0 st)
    by (apply unreset_token; [apply unreset_start|exact H1]).
  split; [exact H1|]. split; [exact H2|].
  exact (proj2 (proj1 (current_pos_le_abs_pos_until_reset (G := pt)
                         single_turn 0) st H2)).
Defined.

Lemma budget_tested_at_turn_head_witness :
  max_tokens tight <= abs_pos replying /\
  exists s,
    repl_loop (G := pt) tight 0 accept_all ["more"] tt 42 replying []
    = Returned (Budget, s) /\
    io (final s) = io replying ++ budget_message tight /\
    turns s = [] /\ unread s = ["more"].
Proof.
  assert (H : max_tokens tight <= abs_pos replying) by (simpl; lia).
  split; [exact H|].
  destruct (proj1 (proj2 (budget_tested_at_turn_head (G := pt) tight 0
                            accept_all)) tt 42 replying ["more"] [] H)
    as (s & Hrun & Hio & _ & _ & _ & _ & _ & Ht & Hu).
  exists s; repeat split; assumption.
Defined.

Lemma quit_literal_ends_session_witness :
  0 < max_tokens chat /\
  Encode (Gemma := pt) (format_prompt (G := pt) tt repl_start "hello")
  = Some [104; 101; 108; 108; 111] /\
  exists m' gen' st',
    engine_call (G := pt) chat 0 accept_all tt 42 repl_start
      [104; 101; 108; 108; 111] = Returned (m', gen', st') /\
    ReplGemma (G := pt) tt chat 0 accept_all 0 ["hello"; "%q"] =
    Returned (Quit,
              {| final := ask 0 (wrap_up 0 st'); final_gen := gen';
                 final_model := m';
                 turns := [turn_of (G := pt) chat 0 accept_all tt 42
                             repl_start "hello" [104; 101; 108; 108; 111]];
                 unread := [] |}).
Proof.
  assert (H1 : 0 < max_tokens chat) by (simpl; lia).
  assert (H2 : Encode (Gemma := pt) (format_prompt (G := pt) tt repl_start "hello")
               = Some [104; 101; 108; 108; 111]) by reflexivity.
  split; [exact H1|]. split; [exact H2|].
  do 3 eexists; split; [vm_compute; reflexivity|].
  rewrite (proj1 (proj2 (quit_literal_ends_session (G := pt) chat 0 accept_all)
                    tt 0 [104; 101; 108; 108; 111] H1 H2)).
  reflexivity.
Defined.

Lemma chat_base_outcome_witness :
  let args := ["--model"; "toy"; "--help"] in
  let argv := "pygemma" :: map CStr.c_str args in
  let argc := Z.of_nat (List.length argv) in
  loader_validate (Host := ToyHost.pt)
    (parse_loader (Host := ToyHost.pt) argc argv) = None /\
  inference_validate (Host := ToyHost.pt)
    (parse_inference (Host := ToyHost.pt) argc argv) = None /\
  snd (chat_base (H := ToyHost.pt) argc argv "now" 0 ["hi"; "%q"]) =
  in_session
    (ReplGemma (G := pt) tt single_turn 0 (fun _ => true) 0 ["hi"; "%q"]).
Proof.
  intros args argv argc.
  assert (H1 : loader_validate (Host := ToyHost.pt)
                 (parse_loader (Host := ToyHost.pt) argc argv) = None)
    by reflexivity.
  assert (H2 : inference_validate (Host := ToyHost.pt)
                 (parse_inference (Host := ToyHost.pt) argc argv) = None)
    by reflexivity.
  split; [exact H1|]. split; [exact H2|].
  exact (proj1 (proj2 (proj2 (proj1 (chat_base_outcome (H := ToyHost.pt)
                                       "now" 0 ["hi"; "%q"]) argc argv))
                  H1 H2)).
Defined.

End EndingRuns.
